(** * Relation state of a unit agent: validation and the state directory

    A shallow embedding of the Go package [relation]: the in-memory
    [State] of a relation with its [Validate] method, and the [StateDir]
    that mirrors the state to one directory per relation, one small record
    file per member unit ([ReadStateDir], [ReadAllStateDirs], [Ensure],
    [Write]).

    Go values are embedded as follows.
    - [int] is [Z]; the package only stores, compares and prints integers,
      and [strconv.Atoi] refuses what does not fit 64 bits.
    - [map[string]int] is [option (gmap string Z)]: [None] is the nil map,
      which reads as empty, ignores [delete], and panics on assignment.
    - [error] is an inductive type with one constructor per [fmt.Errorf]
      site (carrying the format's arguments) and one for the context that
      [trivial.ErrorContextf] puts in front of an error.
    - the file system is a tree of directories and record files; a path is
      the list of its components below the file system's root.

    The second part embeds [MaybeInitiateMongoServer] of package
    [peergrouper], which initiates the replica set of a mongo server that
    has none, as a function of the server's answers to the trace of its
    calls. *)

From Stdlib Require Import ZArith String Ascii Lia.
From Stdlib Require Import DecimalString DecimalZ DecimalPos DecimalFacts.
From stdpp Require Import gmap strings list fin_maps sorting.

Set Warnings "-register-all".
#[local] Open Scope string_scope.
#[local] Open Scope Z_scope.

(** ** Package [hook]: the event descriptor *)

Module hook.

(** Modelled from the spec: the declaration of [hook.Kind] and [hook.Info]
    is not part of the sources at hand. A kind is a string (the source
    prints it with [%q]); the four relation kinds are the constants below,
    and an event descriptor carries the relation id, the remote unit, the
    kind and the change version. *)
Definition Kind : Type := string.

Definition RelationJoined : Kind := "relation-joined".
Definition RelationChanged : Kind := "relation-changed".
Definition RelationDeparted : Kind := "relation-departed".
Definition RelationBroken : Kind := "relation-broken".

Record Info : Type := mkInfo {
  Kind_ : Kind;
  RelationId : Z;
  RemoteUnit : string;
  ChangeVersion : Z;
}.

End hook.

(** ** Errors *)

(** Error numbers of the file system calls. [os.IsNotExist] holds of
    [ENOENT] only. *)
Inductive errno : Type :=
| ENOENT
| ENOTDIR
| EISDIR
| ENOTEMPTY
| EBUSY.

(** A path below the root of the file system, outermost component first. *)
Definition path : Type := list string.

(** The context strings of the four [defer trivial.ErrorContextf] calls. *)
Inductive context : Type :=
| Inappropriate (kind : hook.Kind) (unit : string)
| CannotLoadRelationState (p : path)
| CannotLoadRelationsState (dirPath : path)
| FailedToWrite (kind : hook.Kind) (unit : string).

Inductive error : Type :=
| PathError (e : errno)
| InvalidYaml
| WrongRelation (expected got : Z)
| RelationAlreadyBroken
| UnitsStillPresent
| PendingChangeRequired (unit : string)
| AlreadyJoined
| NotJoined
| InvalidUnitFile (name : string) (cause : error)
| ChangeVersionNotSet (name : string)
| BothPending (first second : string)
| Context (c : context) (cause : error).

Inductive result (A : Type) : Type :=
| Ok (a : A)
| Err (e : error).

Arguments Ok {A} a.
Arguments Err {A} e.

(** [trivial.ErrorContextf(&err, ...)]: a nil error stays nil, any other
    error gets the context in front. *)
Definition ErrorContextf (c : context) (err : option error) : option error :=
  match err with
  | None => None
  | Some e => Some (Context c e)
  end.

Definition ErrorContextf_result {A : Type} (c : context) (r : result A) : result A :=
  match r with
  | Ok a => Ok a
  | Err e => Err (Context c e)
  end.

Definition IsNotExist (e : errno) : bool :=
  match e with
  | ENOENT => true
  | _ => false
  end.

(** ** The relation state *)

Record State : Type := mkState {
  RelationId : Z;
  Members : option (gmap string Z);
  ChangedPending : string;
}.

(** [State.copy]: a fresh map with the same entries, nil staying nil. *)
Definition copy (s : State) : State :=
  {| RelationId := RelationId s;
     Members := match Members s with
                | None => None
                | Some m => Some (map_fold (λ k v acc, <[k:=v]> acc) ∅ m)
                end;
     ChangedPending := ChangedPending s |}.

(** [_, joined := s.Members[unit]] *)
Definition joined (m : gmap string Z) (unit : string) : bool :=
  bool_decide (is_Some (m !! unit)).

(** [State.Validate]. The body is the sequence of early returns of the
    source; the deferred context is put around whatever it returns. *)
Definition Validate_body (s : State) (hi : hook.Info) : option error :=
  if negb (Z.eqb (hook.RelationId hi) (RelationId s)) then
    Some (WrongRelation (RelationId s) (hook.RelationId hi))
  else
    match Members s with
    | None => Some RelationAlreadyBroken
    | Some m =>
        let unit := hook.RemoteUnit hi in
        let kind := hook.Kind_ hi in
        if String.eqb kind hook.RelationBroken then
          if Nat.eqb (size m) 0 then None else Some UnitsStillPresent
        else if negb (String.eqb (ChangedPending s) "") then
          if negb (String.eqb unit (ChangedPending s))
             || negb (String.eqb kind hook.RelationChanged)
          then Some (PendingChangeRequired (ChangedPending s))
          else None
        else if joined m unit && String.eqb kind hook.RelationJoined then
          Some AlreadyJoined
        else if negb (joined m unit) && negb (String.eqb kind hook.RelationJoined) then
          Some NotJoined
        else None
    end.

Definition Validate (s : State) (hi : hook.Info) : option error :=
  ErrorContextf (Inappropriate (hook.Kind_ hi) (hook.RemoteUnit hi))
    (Validate_body s hi).

(** The checks of the validation as the specification words them: one rule
    per outcome, each rule listing what the earlier checks have excluded. *)
Inductive ValidateSpec (s : State) (e : hook.Info) : option error → Prop :=
| VS_WrongRelation :
    hook.RelationId e ≠ RelationId s →
    ValidateSpec s e (Some (WrongRelation (RelationId s) (hook.RelationId e)))
| VS_AlreadyBroken :
    hook.RelationId e = RelationId s →
    Members s = None →
    ValidateSpec s e (Some RelationAlreadyBroken)
| VS_TeardownOk (m : gmap string Z) :
    hook.RelationId e = RelationId s →
    Members s = Some m →
    hook.Kind_ e = hook.RelationBroken →
    m = ∅ →
    ValidateSpec s e None
| VS_TeardownUnits (m : gmap string Z) :
    hook.RelationId e = RelationId s →
    Members s = Some m →
    hook.Kind_ e = hook.RelationBroken →
    m ≠ ∅ →
    ValidateSpec s e (Some UnitsStillPresent)
| VS_PendingOk (m : gmap string Z) :
    hook.RelationId e = RelationId s →
    Members s = Some m →
    hook.Kind_ e ≠ hook.RelationBroken →
    ChangedPending s ≠ "" →
    hook.RemoteUnit e = ChangedPending s →
    hook.Kind_ e = hook.RelationChanged →
    ValidateSpec s e None
| VS_PendingRequired (m : gmap string Z) :
    hook.RelationId e = RelationId s →
    Members s = Some m →
    hook.Kind_ e ≠ hook.RelationBroken →
    ChangedPending s ≠ "" →
    ¬ (hook.RemoteUnit e = ChangedPending s ∧ hook.Kind_ e = hook.RelationChanged) →
    ValidateSpec s e (Some (PendingChangeRequired (ChangedPending s)))
| VS_AlreadyJoined (m : gmap string Z) :
    hook.RelationId e = RelationId s →
    Members s = Some m →
    hook.Kind_ e ≠ hook.RelationBroken →
    ChangedPending s = "" →
    is_Some (m !! hook.RemoteUnit e) →
    hook.Kind_ e = hook.RelationJoined →
    ValidateSpec s e (Some AlreadyJoined)
| VS_NotJoined (m : gmap string Z) :
    hook.RelationId e = RelationId s →
    Members s = Some m →
    hook.Kind_ e ≠ hook.RelationBroken →
    ChangedPending s = "" →
    m !! hook.RemoteUnit e = None →
    hook.Kind_ e ≠ hook.RelationJoined →
    ValidateSpec s e (Some NotJoined)
| VS_Valid (m : gmap string Z) :
    hook.RelationId e = RelationId s →
    Members s = Some m →
    hook.Kind_ e ≠ hook.RelationBroken →
    ChangedPending s = "" →
    (is_Some (m !! hook.RemoteUnit e) ∧ hook.Kind_ e ≠ hook.RelationJoined)
    ∨ (m !! hook.RemoteUnit e = None ∧ hook.Kind_ e = hook.RelationJoined) →
    ValidateSpec s e None.

(** ** Strings, numbers and paths: the library calls of the package *)

Definition slash : ascii := "/"%char.
Definition hyphen : ascii := "-"%char.

(** [strings.LastIndex(s, sep)] for a separator of one byte: the index of
    the last occurrence of [sep] in [s], or [-1]. *)
Fixpoint LastIndex (s : string) (sep : ascii) : Z :=
  match s with
  | EmptyString => -1
  | String a s' =>
      let r := LastIndex s' sep in
      if 0 <=? r then r + 1
      else if Ascii.eqb a sep then 0 else -1
  end.

(** The slices [s[:n]] and [s[n:]]. *)
Fixpoint slice_to (s : string) (n : nat) : string :=
  match n, s with
  | S n', String a s' => String a (slice_to s' n')
  | _, _ => EmptyString
  end.

Fixpoint slice_from (s : string) (n : nat) : string :=
  match n, s with
  | S n', String _ s' => slice_from s' n'
  | _, _ => s
  end.

(** [strings.Replace(s, old, new, 1)] for one-byte [old] and [new]: the
    first occurrence of [old] is replaced. *)
Fixpoint Replace1 (s : string) (old new : ascii) : string :=
  match s with
  | EmptyString => EmptyString
  | String a s' =>
      if Ascii.eqb a old then String new s' else String a (Replace1 s' old new)
  end.

(** [strings.Split(s, sep)] for a separator of one byte. *)
Fixpoint Split (s : string) (sep : ascii) : list string :=
  match s with
  | EmptyString => [EmptyString]
  | String a s' =>
      if Ascii.eqb a sep then EmptyString :: Split s' sep
      else match Split s' sep with
           | c :: cs => String a c :: cs
           | [] => [String a EmptyString]
           end
  end.

Definition digit (a : ascii) : option Z :=
  let n := Z.of_N (N_of_ascii a) in
  if (48 <=? n) && (n <=? 57) then Some (n - 48) else None.

Fixpoint digits (s : string) (acc : Z) : option Z :=
  match s with
  | EmptyString => Some acc
  | String a s' =>
      match digit a with
      | Some d => digits s' (10 * acc + d)
      | None => None
      end
  end.

(** [strconv.Atoi]: an optional sign, then at least one decimal digit, and
    a value that fits a 64-bit [int]; [None] stands for a non-nil error. *)
Definition Atoi (s : string) : option Z :=
  match s with
  | EmptyString => None
  | String a s' =>
      let neg := Ascii.eqb a "-"%char in
      let rest := if Ascii.eqb a "+"%char || neg then s' else s in
      match rest with
      | EmptyString => None
      | _ =>
          match digits rest 0 with
          | None => None
          | Some un =>
              if neg then (if un <=? 2 ^ 63 then Some (- un) else None)
              else (if un <? 2 ^ 63 then Some un else None)
          end
      end
  end.

(** [strconv.Itoa] *)
Definition Itoa (n : Z) : string := NilZero.string_of_int (Z.to_int n).

(** [filepath.Join(p, elem)] on a path [p] that is already clean: the
    components of [elem] are taken one by one, empty ones and [.] dropped,
    [..] stepping back to the parent (staying at the root when there is
    none). *)
Definition clean_step (p : path) (c : string) : path :=
  if String.eqb c "" || String.eqb c "." then p
  else if String.eqb c ".." then removelast p
  else (p ++ [c])%list.

Definition Join (p : path) (elem : string) : path :=
  foldl clean_step p (Split elem slash).

(** ** The file system *)

(** [diskInfo], the content of a unit's record file. *)
Record diskInfo : Type := mkDiskInfo {
  di_ChangeVersion : option Z;
  di_ChangedPending : bool;
}.

(** What a file holds is what decoding it as YAML into a [diskInfo] gives:
    a record (a missing [change-version] is [None], a missing
    [changed-pending] is [false]) or a decoding error. *)
Inductive content : Type :=
| Yaml (di : diskInfo)
| NotYaml.

Inductive node : Type :=
| File (c : content)
| Dir (entries : gmap string node).

Inductive sys (A : Type) : Type :=
| SysOk (a : A)
| SysErr (e : errno).

Arguments SysOk {A} a.
Arguments SysErr {A} e.

(** Path resolution, as every system call does it: a missing component is
    [ENOENT], a component below a file is [ENOTDIR]. *)
Fixpoint resolve (fs : node) (p : path) : sys node :=
  match p with
  | [] => SysOk fs
  | c :: p' =>
      match fs with
      | File _ => SysErr ENOTDIR
      | Dir entries =>
          match entries !! c with
          | None => SysErr ENOENT
          | Some n => resolve n p'
          end
      end
  end.

(** [os.Stat] *)
Definition Stat (fs : node) (p : path) : sys node := resolve fs p.

Definition name_le (a b : string) : Prop := Is_true (String.leb a b).

(** [ioutil.ReadDir]: the names in the directory, sorted. *)
Definition ReadDir (fs : node) (p : path) : sys (list string) :=
  match resolve fs p with
  | SysErr e => SysErr e
  | SysOk (File _) => SysErr ENOTDIR
  | SysOk (Dir entries) => SysOk (merge_sort name_le (map_to_list entries).*1)
  end.

(** [os.Remove]: removes the named file or empty directory. The file
    system after the call is returned. *)
Fixpoint Remove (fs : node) (p : path) : sys node :=
  match p with
  | [] => SysErr EBUSY
  | c :: p' =>
      match fs with
      | File _ => SysErr ENOTDIR
      | Dir entries =>
          match entries !! c with
          | None => SysErr ENOENT
          | Some n =>
              match p' with
              | [] =>
                  match n with
                  | File _ => SysOk (Dir (delete c entries))
                  | Dir sub =>
                      if Nat.eqb (size sub) 0 then SysOk (Dir (delete c entries))
                      else SysErr ENOTEMPTY
                  end
              | _ :: _ =>
                  match Remove n p' with
                  | SysErr e => SysErr e
                  | SysOk n' => SysOk (Dir (<[c:=n']> entries))
                  end
              end
          end
      end
  end.

(** Modelled from the spec: [trivial.WriteYaml] is not part of the sources
    at hand. It atomically writes a record file: after a successful call
    the file holds the record, after a failed one nothing has changed. The
    call fails when the directory of the file is missing or is a file, and
    when the target is a directory. *)
Fixpoint WriteYaml (fs : node) (p : path) (di : diskInfo) : sys node :=
  match p with
  | [] => SysErr EISDIR
  | c :: p' =>
      match fs with
      | File _ => SysErr ENOTDIR
      | Dir entries =>
          match p' with
          | [] =>
              match entries !! c with
              | Some (Dir _) => SysErr EISDIR
              | _ => SysOk (Dir (<[c:=File (Yaml di)]> entries))
              end
          | _ :: _ =>
              match entries !! c with
              | None => SysErr ENOENT
              | Some n =>
                  match WriteYaml n p' di with
                  | SysErr e => SysErr e
                  | SysOk n' => SysOk (Dir (<[c:=n']> entries))
                  end
              end
          end
      end
  end.

(** Modelled from the spec: [trivial.ReadYaml] is not part of the sources
    at hand. It reads the file at the path and decodes it. *)
Definition ReadYaml (fs : node) (p : path) : result diskInfo :=
  match resolve fs p with
  | SysErr e => Err (PathError e)
  | SysOk (Dir _) => Err (PathError EISDIR)
  | SysOk (File NotYaml) => Err InvalidYaml
  | SysOk (File (Yaml di)) => Ok di
  end.

(** Modelled from the spec: [trivial.EnsureDir] is not part of the sources
    at hand. It creates the directory and any missing parents, and does
    nothing when the directory is there. *)
Fixpoint EnsureDir (fs : node) (p : path) : sys node :=
  match fs with
  | File _ => SysErr ENOTDIR
  | Dir entries =>
      match p with
      | [] => SysOk fs
      | c :: p' =>
          match EnsureDir (default (Dir ∅) (entries !! c)) p' with
          | SysErr e => SysErr e
          | SysOk n' => SysOk (Dir (<[c:=n']> entries))
          end
      end
  end.

(** ** The state directory *)

Record StateDir : Type := mkStateDir {
  path_ : path;
  state : State;
}.

(** [StateDir.State] *)
Definition State_ (d : StateDir) : State := copy (state d).

(** The unit name that [ReadStateDir] reads off an entry's name:
    [svcName + "/" + unitId] when the name ends in a hyphen followed by an
    integer, nothing for the names that it skips. *)
Definition unitOfEntry (name : string) : option string :=
  let i := LastIndex name hyphen in
  if i =? -1 then None
  else
    let svcName := slice_to name (Z.to_nat i) in
    let unitId := slice_from name (Z.to_nat (i + 1)) in
    match Atoi unitId with
    | None => None
    | Some _ => Some (svcName ++ "/" ++ unitId)%string
    end.

(** The loop of [ReadStateDir] over the entries of the directory, on the
    members map and the pending unit of [d.state]. *)
Fixpoint readEntries (fs : node) (dpath : path) (fis : list string)
    (members : gmap string Z) (pending : string)
    : result (gmap string Z * string) :=
  match fis with
  | [] => Ok (members, pending)
  | name :: rest =>
      match unitOfEntry name with
      | None => readEntries fs dpath rest members pending
      | Some unitName =>
          match ReadYaml fs (Join dpath name) with
          | Err e => Err (InvalidUnitFile name e)
          | Ok info =>
              match di_ChangeVersion info with
              | None => Err (ChangeVersionNotSet name)
              | Some v =>
                  let members := <[unitName:=v]> members in
                  if di_ChangedPending info then
                    if negb (String.eqb pending "") then
                      Err (BothPending pending unitName)
                    else readEntries fs dpath rest members unitName
                  else readEntries fs dpath rest members pending
              end
          end
      end
  end.

(** The state directory of a relation without history: the value that
    [ReadStateDir] starts from. *)
Definition fresh (dirPath : path) (relationId : Z) : StateDir :=
  {| path_ := Join dirPath (Itoa relationId);
     state := {| RelationId := relationId;
                 Members := Some ∅;
                 ChangedPending := "" |} |}.

Definition ReadStateDir (fs : node) (dirPath : path) (relationId : Z)
    : result StateDir :=
  let d := fresh dirPath relationId in
  ErrorContextf_result (CannotLoadRelationState (path_ d))
    match Stat fs (path_ d) with
    | SysErr e => if IsNotExist e then Ok d else Err (PathError e)
    | SysOk _ =>
        match ReadDir fs (path_ d) with
        | SysErr e => Err (PathError e)
        | SysOk fis =>
            match readEntries fs (path_ d) fis ∅ "" with
            | Err e => Err e
            | Ok (members, pending) =>
                Ok {| path_ := path_ d;
                      state := {| RelationId := relationId;
                                  Members := Some members;
                                  ChangedPending := pending |} |}
            end
        end
    end.

(** The loop of [ReadAllStateDirs] over the entries of [dirPath]. *)
Fixpoint readAllEntries (fs : node) (dirPath : path) (fis : list string)
    (dirs : gmap Z StateDir) : result (gmap Z StateDir) :=
  match fis with
  | [] => Ok dirs
  | name :: rest =>
      match Atoi name with
      | None => readAllEntries fs dirPath rest dirs
      | Some relationId =>
          match ReadStateDir fs dirPath relationId with
          | Err e => Err e
          | Ok dir => readAllEntries fs dirPath rest (<[relationId:=dir]> dirs)
          end
      end
  end.

(** [ReadAllStateDirs]; the nil map that it returns for a missing
    [dirPath] is [None]. *)
Definition ReadAllStateDirs (fs : node) (dirPath : path)
    : result (option (gmap Z StateDir)) :=
  ErrorContextf_result (CannotLoadRelationsState dirPath)
    match Stat fs dirPath with
    | SysErr e => if IsNotExist e then Ok None else Err (PathError e)
    | SysOk _ =>
        match ReadDir fs dirPath with
        | SysErr e => Err (PathError e)
        | SysOk fis =>
            match readAllEntries fs dirPath fis ∅ with
            | Err e => Err e
            | Ok dirs => Ok (Some dirs)
            end
        end
    end.

(** The entries of a map value, the nil map having none. *)
Definition entries_of {K A : Type} `{Countable K} (m : option (gmap K A)) : gmap K A :=
  default ∅ m.

(** [StateDir.Ensure]: the error and the file system after the call. *)
Definition Ensure (d : StateDir) (fs : node) : option error * node :=
  match EnsureDir fs (path_ d) with
  | SysErr e => (Some (PathError e), fs)
  | SysOk fs' => (None, fs')
  end.

(** How a call of [Write] ends: it returns an error (nil or not), or it
    panics on the assignment into a nil map. *)
Inductive outcome : Type :=
| Return (err : option error)
| Panic.

Definition with_Members (s : State) (m : option (gmap string Z)) : State :=
  {| RelationId := RelationId s; Members := m; ChangedPending := ChangedPending s |}.

Definition with_state (d : StateDir) (s : State) : StateDir :=
  {| path_ := path_ d; state := s |}.

(** [StateDir.Write]: how the call ends, the state directory and the file
    system after it. *)
Definition Write (d : StateDir) (fs : node) (hi : hook.Info)
    : outcome * StateDir * node :=
  let ctx := FailedToWrite (hook.Kind_ hi) (hook.RemoteUnit hi) in
  if String.eqb (hook.Kind_ hi) hook.RelationBroken then
    match Remove fs (path_ d) with
    | SysErr e =>
        if negb (IsNotExist e) then (Return (Some (Context ctx (PathError e))), d, fs)
        else (Return None, with_state d (with_Members (state d) None), fs)
    | SysOk fs' => (Return None, with_state d (with_Members (state d) None), fs')
    end
  else
    let name := Replace1 (hook.RemoteUnit hi) slash hyphen in
    let p := Join (path_ d) name in
    if String.eqb (hook.Kind_ hi) hook.RelationDeparted then
      let removed :=
        with_state d
          (with_Members (state d) (delete (hook.RemoteUnit hi) <$> Members (state d))) in
      match Remove fs p with
      | SysErr e =>
          if negb (IsNotExist e) then (Return (Some (Context ctx (PathError e))), d, fs)
          else (Return None, removed, fs)
      | SysOk fs' => (Return None, removed, fs')
      end
    else
      let di := {| di_ChangeVersion := Some (hook.ChangeVersion hi);
                   di_ChangedPending := String.eqb (hook.Kind_ hi) hook.RelationJoined |} in
      match WriteYaml fs p di with
      | SysErr e => (Return (Some (Context ctx (PathError e))), d, fs)
      | SysOk fs' =>
          match Members (state d) with
          | None => (Panic, d, fs')
          | Some m =>
              (Return None,
               with_state d
                 {| RelationId := RelationId (state d);
                    Members := Some (<[hook.RemoteUnit hi:=hook.ChangeVersion hi]> m);
                    ChangedPending :=
                      if String.eqb (hook.Kind_ hi) hook.RelationJoined
                      then hook.RemoteUnit hi else "" |},
               fs')
          end
      end.

(** ** The caller's loop *)

(** How the loop of the caller ends on a list of events: each event is
    validated against the current state, and written when it is valid; the
    loop stops at the first event that is invalid or cannot be written. The
    number is the index of that event. *)
Inductive run_result : Type :=
| Completed (d : StateDir) (fs : node)
| ValidationFailed (n : nat) (e : error)
| WriteFailed (n : nat) (e : error)
| WritePanicked (n : nat).

Fixpoint run_from (n : nat) (d : StateDir) (fs : node) (es : list hook.Info)
    : run_result :=
  match es with
  | [] => Completed d fs
  | hi :: rest =>
      match Validate (State_ d) hi with
      | Some e => ValidationFailed n e
      | None =>
          match Write d fs hi with
          | (Return None, d', fs') => run_from (S n) d' fs' rest
          | (Return (Some e), _, _) => WriteFailed n e
          | (Panic, _, _) => WritePanicked n
          end
      end
  end.

Definition run (d : StateDir) (fs : node) (es : list hook.Info) : run_result :=
  run_from 0 d fs es.

(** Writing a list of events one after the other without validating them,
    up to the first write that does not return nil. *)
Fixpoint write_all (d : StateDir) (fs : node) (es : list hook.Info)
    : option (StateDir * node) :=
  match es with
  | [] => Some (d, fs)
  | hi :: rest =>
      match Write d fs hi with
      | (Return None, d', fs') => write_all d' fs' rest
      | _ => None
      end
  end.

(** ** The order of events that the validation enforces *)

(** The protocol of a relation as the validation enforces it, relation-wide:
    a unit joins, the very next event of the relation is its first
    "changed", then it changes any number of times and departs; the
    relation is torn down only when no unit is left, and nothing follows
    the teardown. The state of the protocol is the set of units present,
    the unit that is owed its first "changed", and whether the relation has
    been torn down. *)
Record Protocol : Type := mkProtocol {
  present : gset string;
  awaiting : option string;
  torn_down : bool;
}.

Definition protocol_start : Protocol :=
  {| present := ∅; awaiting := None; torn_down := false |}.

Definition protocol_step (p : Protocol) (e : hook.Info) : option Protocol :=
  let unit := hook.RemoteUnit e in
  let kind := hook.Kind_ e in
  if torn_down p then None
  else if decide (kind = hook.RelationBroken) then
    if decide (present p = ∅)
    then Some {| present := present p; awaiting := awaiting p; torn_down := true |}
    else None
  else
    match awaiting p with
    | Some u =>
        if decide (kind = hook.RelationChanged ∧ unit = u)
        then Some {| present := present p; awaiting := None; torn_down := false |}
        else None
    | None =>
        if decide (kind = hook.RelationJoined) then
          if decide (unit ∈ present p) then None
          else Some {| present := {[unit]} ∪ present p;
                       awaiting := Some unit; torn_down := false |}
        else if decide (kind = hook.RelationChanged) then
          if decide (unit ∈ present p) then Some p else None
        else if decide (kind = hook.RelationDeparted) then
          if decide (unit ∈ present p)
          then Some {| present := present p ∖ {[unit]};
                       awaiting := None; torn_down := false |}
          else None
        else None
    end.

Fixpoint protocol_run (p : Protocol) (es : list hook.Info) : option Protocol :=
  match es with
  | [] => Some p
  | e :: rest =>
      match protocol_step p e with
      | None => None
      | Some p' => protocol_run p' rest
      end
  end.

(** A relation state stands at a point of the protocol: it holds the units
    present as its members and the unit owed a "changed" as its pending
    unit. *)
Definition tracks (p : Protocol) (s : State) : Prop :=
  torn_down p = false
  ∧ (∃ m : gmap string Z, Members s = Some m ∧ dom m = present p)
  ∧ ChangedPending s = default "" (awaiting p)
  ∧ (∀ u, awaiting p = Some u → u ∈ present p).

(** The protocol unit by unit, in the words of the specification's testable
    property: each unit joins, then has its first "changed", then changes
    any number of times and departs, whatever the other units do in
    between; the teardown comes only once no unit is left, and nothing
    follows it. A unit that has joined is in one of two phases. *)
Inductive unit_phase : Type :=
| OwedChanged
| Settled.

Record UnitProtocol : Type := mkUnitProtocol {
  phases : gmap string unit_phase;
  ended : bool;
}.

Definition unit_protocol_start : UnitProtocol :=
  {| phases := ∅; ended := false |}.

Definition unit_protocol_step (p : UnitProtocol) (e : hook.Info)
    : option UnitProtocol :=
  let unit := hook.RemoteUnit e in
  let kind := hook.Kind_ e in
  if ended p then None
  else if decide (kind = hook.RelationBroken) then
    if Nat.eqb (size (phases p)) 0
    then Some {| phases := phases p; ended := true |}
    else None
  else
    match phases p !! unit with
    | None =>
        if decide (kind = hook.RelationJoined)
        then Some {| phases := <[unit:=OwedChanged]> (phases p); ended := false |}
        else None
    | Some OwedChanged =>
        if decide (kind = hook.RelationChanged)
        then Some {| phases := <[unit:=Settled]> (phases p); ended := false |}
        else None
    | Some Settled =>
        if decide (kind = hook.RelationChanged) then Some p
        else if decide (kind = hook.RelationDeparted)
        then Some {| phases := delete unit (phases p); ended := false |}
        else None
    end.

Fixpoint unit_protocol_run (p : UnitProtocol) (es : list hook.Info)
    : option UnitProtocol :=
  match es with
  | [] => Some p
  | e :: rest =>
      match unit_protocol_step p e with
      | None => None
      | Some p' => unit_protocol_run p' rest
      end
  end.

(** A point of the relation-wide protocol and a point of the protocol unit
    by unit that describe the same units. *)
Definition same_units (p : Protocol) (q : UnitProtocol) : Prop :=
  torn_down p = ended q
  ∧ dom (phases q) = present p
  ∧ (∀ u, phases q !! u = Some OwedChanged ↔ awaiting p = Some u).

(** ** Unit names and record files *)

Fixpoint contains (c : ascii) (s : string) : bool :=
  match s with
  | EmptyString => false
  | String a s' => Ascii.eqb a c || contains c s'
  end.

(** A unit name: a service name without a slash, a slash, and the number of
    the unit, written without a sign. *)
Definition UnitName (u : string) : Prop :=
  ∃ svc num : string,
    u = (svc ++ "/" ++ num)%string
    ∧ contains slash svc = false
    ∧ contains hyphen num = false
    ∧ is_Some (Atoi num).

(** An event that joins, changes or removes a unit with a unit name. *)
Definition unit_event (e : hook.Info) : Prop :=
  (hook.Kind_ e = hook.RelationJoined
   ∨ hook.Kind_ e = hook.RelationChanged
   ∨ hook.Kind_ e = hook.RelationDeparted)
  ∧ UnitName (hook.RemoteUnit e).

(** The names in a directory are names of files: none holds a separator. *)
Definition file_names (entries : gmap string node) : Prop :=
  ∀ name : string, is_Some (entries !! name) → contains slash name = false.

(** The same of the directory at a path, when there is one. *)
Definition file_names_at (fs : node) (p : path) : Prop :=
  ∀ entries, resolve fs p = SysOk (Dir entries) → file_names entries.

(** The record file of entry [name] of the directory at [dpath] decodes to
    the change version [v] and the changed-pending flag [b]. *)
Definition record_at (fs : node) (dpath : path) (name : string) (v : Z) (b : bool)
    : Prop :=
  ReadYaml fs (Join dpath name)
  = Ok {| di_ChangeVersion := Some v; di_ChangedPending := b |}.

(** What the entries of a directory say about a relation, whatever their
    order: every entry named as a unit's record is a record with a change
    version, the members are the units of these records with their
    versions, and the pending unit is the unit of the one record that
    carries the flag, if any. *)
Definition Loaded (fs : node) (dpath : path) (names : list string)
    (m : gmap string Z) (cp : string) : Prop :=
  (∀ name u, name ∈ names → unitOfEntry name = Some u →
     ∃ v b, record_at fs dpath name v b ∧ m !! u = Some v ∧ (b = true → cp = u))
  ∧ (∀ u, is_Some (m !! u) → ∃ name, name ∈ names ∧ unitOfEntry name = Some u)
  ∧ (cp ≠ "" →
     ∃ name v, name ∈ names ∧ unitOfEntry name = Some cp ∧ record_at fs dpath name v true).

(** The same on the entries of the directory themselves. *)
Definition LoadedDir (entries : gmap string node) (m : gmap string Z) (cp : string)
    : Prop :=
  (∀ name u, is_Some (entries !! name) → unitOfEntry name = Some u →
     ∃ v b, entries !! name = Some (File (Yaml {| di_ChangeVersion := Some v;
                                                  di_ChangedPending := b |}))
            ∧ m !! u = Some v ∧ (b = true → cp = u))
  ∧ (∀ u, is_Some (m !! u) →
       ∃ name, is_Some (entries !! name) ∧ unitOfEntry name = Some u)
  ∧ (cp ≠ "" →
     ∃ name v, unitOfEntry name = Some cp
               ∧ entries !! name = Some (File (Yaml {| di_ChangeVersion := Some v;
                                                       di_ChangedPending := true |}))).

(** A record file of a unit that lacks the change version. *)
Definition lacks_version (entries : gmap string node) : Prop :=
  ∃ (name : string) (b : bool),
    is_Some (unitOfEntry name)
    ∧ entries !! name = Some (File (Yaml {| di_ChangeVersion := None;
                                            di_ChangedPending := b |})).

(** Two record files of units that both carry the changed-pending flag. *)
Definition two_pending (entries : gmap string node) : Prop :=
  ∃ (name1 name2 : string) (v1 v2 : option Z),
    name1 ≠ name2
    ∧ is_Some (unitOfEntry name1) ∧ is_Some (unitOfEntry name2)
    ∧ entries !! name1 = Some (File (Yaml {| di_ChangeVersion := v1;
                                             di_ChangedPending := true |}))
    ∧ entries !! name2 = Some (File (Yaml {| di_ChangeVersion := v2;
                                             di_ChangedPending := true |})).

(** ** Sample data: relation 7 of the unit [wordpress/0] *)

Definition ex_root : path := ["state"; "relations"].

Definition ex_event (kind : hook.Kind) (unit : string) (version : Z) : hook.Info :=
  {| hook.Kind_ := kind; hook.RelationId := 7;
     hook.RemoteUnit := unit; hook.ChangeVersion := version |}.

Definition ex_joined : hook.Info := ex_event hook.RelationJoined "wordpress/0" 1.
Definition ex_changed : hook.Info := ex_event hook.RelationChanged "wordpress/0" 2.
Definition ex_departed : hook.Info := ex_event hook.RelationDeparted "wordpress/0" 2.
Definition ex_broken : hook.Info := ex_event hook.RelationBroken "" 0.

(** A file system in which nothing exists below the root. *)
Definition ex_fs_bare : node := Dir ∅.

(** The fresh state directory of relation 7, and the file system once the
    directory has been ensured. *)
Definition ex_dir : StateDir := fresh ex_root 7.

Definition ex_fs : node := (Ensure ex_dir ex_fs_bare).2.

(** The directory of relation 7 holding the given entries. *)
Definition ex_fs_with (entries : gmap string node) : node :=
  Dir {["state" := Dir {["relations" := Dir {["7" := Dir entries]}]}]}.

Definition ex_record (version : option Z) (pending : bool) : node :=
  File (Yaml {| di_ChangeVersion := version; di_ChangedPending := pending |}).

(** The state directory and the file system once [wordpress/0] has joined. *)
Definition ex_dir_joined : StateDir := (Write ex_dir ex_fs ex_joined).1.2.
Definition ex_fs_joined : node := (Write ex_dir ex_fs ex_joined).2.

(** A root path that holds the directories [-3] and [7] and a stray file. *)
Definition ex_fs_negative : node :=
  Dir {["state" := Dir {["relations" :=
    Dir {["-3" := Dir ∅; "7" := Dir ∅; "notes" := File NotYaml]}]}]}.

(** A sequence of events that the validation lets pass. *)
Definition ex_events : list hook.Info :=
  [ex_joined; ex_changed; ex_event hook.RelationJoined "mysql/3" 5].

(** Two units that join one after the other and then have their first
    "changed" each. *)
Definition ex_interleaved : list hook.Info :=
  [ex_joined; ex_event hook.RelationJoined "mysql/3" 5;
   ex_changed; ex_event hook.RelationChanged "mysql/3" 6].

(** ** What a write touches, and the pending unit *)

(** The unit whose change is pending, when there is one, is a member. *)
Definition pending_is_member (s : State) : Prop :=
  ChangedPending s = ""
  ∨ ∃ m : gmap string Z, Members s = Some m ∧ is_Some (m !! ChangedPending s).

(** Two paths of which neither leads through the other. *)
Definition apart (p q : path) : Prop := ¬ p `prefix_of` q ∧ ¬ q `prefix_of` p.

(** The one path that [Write] hands to the file system: the directory for a
    teardown, the record file of the unit otherwise. *)
Definition written_path (d : StateDir) (e : hook.Info) : path :=
  if String.eqb (hook.Kind_ e) hook.RelationBroken then path_ d
  else Join (path_ d) (Replace1 (hook.RemoteUnit e) slash hyphen).

(** * Package [peergrouper]: initiating the replica set

    [MaybeInitiateMongoServer] talks to a mongo server through the driver
    and package [replicaset], which are outside the sources at hand. The
    embedding passes the answers of the server in as a [World] and returns,
    with how the call ends, the calls and log lines in the order in which
    they are made. *)

Module peergrouper.

(** [mgo.DialInfo], by the fields that the package reads and writes. *)
Record DialInfo : Type := mkDialInfo {
  Addrs : list string;
  Direct : bool;
  Username : string;
  Password : string;
}.

(** [InitiateMongoParams]. [DialInfo_] is a pointer, [None] when nil: what
    the function assigns through it is seen by the caller. *)
Record InitiateMongoParams : Type := mkParams {
  DialInfo_ : option DialInfo;
  MemberHostPort : string;
  User : string;
  Password_ : string;
}.

(** An error of the mongo driver: the sentinel [mgo.ErrNotFound] or another
    error, with its text. *)
Inductive mgo_error : Type :=
| ErrNotFound
| ErrOther (text : string).

(** The three [fmt.Errorf] of the function, each with its cause. *)
Inductive initiate_error : Type :=
| CannotDial (cause : mgo_error)
| CannotGetConfig (cause : mgo_error)
| CannotInitiate (cause : mgo_error).

(** How a call ends: it returns its error value, or it panics on the nil
    pointer. *)
Inductive ending : Type :=
| Returns (err : option initiate_error)
| Panics.

(** What the function does to the world outside, in order: its log lines
    and its calls of the driver and of package [replicaset]. *)
Inductive event : Type :=
| LogInitiating (info : option DialInfo) (memberHostPort user password : string)
| LogMoreThanOneMember
| LogAlreadyFound (members : list string)
| LogFinished
| DialWithInfo (info : DialInfo)
| CurrentConfig
| Initiate (address name : string) (tags : list (string * string))
| Close.

(** What the world answers: to the dial, to the request for the current
    configuration (an error, or the members of the configuration), and to
    the initiation. Each is asked at most once in a call. *)
Record World : Type := mkWorld {
  dial : DialInfo → option mgo_error;
  currentConfig : mgo_error + list string;
  initiate : string → string → list (string * string) → option mgo_error;
}.

Section MaybeInitiateMongoServer.

(** [mongo.ReplicaSetName], [jujuMachineTag] and [agent.BootstrapMachineId]
    are constants declared outside the sources at hand. *)
Variables (ReplicaSetName jujuMachineTag BootstrapMachineId : string).

(** [MaybeInitiateMongoServer]: how the call ends, the dial info as the
    call leaves it, and the events in order. The deferred calls run last,
    the later deferred first, also when the call panics. *)
Definition MaybeInitiateMongoServer (w : World) (p : InitiateMongoParams)
    : ending * option DialInfo * list event :=
  let started :=
    [LogInitiating (DialInfo_ p) (MemberHostPort p) (User p) (Password_ p)] in
  match DialInfo_ p with
  | None => (Panics, None, (started ++ [LogFinished])%list)
  | Some info =>
  if Nat.ltb 1 (length (Addrs info)) then
    (Returns None, Some info, (started ++ [LogMoreThanOneMember; LogFinished])%list)
  else
    let info := {| Addrs := Addrs info; Direct := true;
                   Username := Username info; Password := Password info |} in
    let info :=
      if negb (String.eqb (User p) "")
      then {| Addrs := Addrs info; Direct := Direct info;
              Username := User p; Password := Password_ p |}
      else info in
    match dial w info with
    | Some err =>
        (Returns (Some (CannotDial err)), Some info,
         (started ++ [DialWithInfo info; LogFinished])%list)
    | None =>
        let dialed := (started ++ [DialWithInfo info; CurrentConfig])%list in
        let tags := [(jujuMachineTag, BootstrapMachineId)] in
        let initiating :=
          match initiate w (MemberHostPort p) ReplicaSetName tags with
          | Some err => Some (CannotInitiate err)
          | None => None
          end in
        let initiated :=
          (dialed ++ [Initiate (MemberHostPort p) ReplicaSetName tags; Close;
                      LogFinished])%list in
        match currentConfig w with
        | inr members =>
            if Nat.ltb 0 (length members) then
              (Returns None, Some info,
               (dialed ++ [LogAlreadyFound members; Close; LogFinished])%list)
            else (Returns initiating, Some info, initiated)
        | inl err =>
            match err with
            | ErrNotFound => (Returns initiating, Some info, initiated)
            | _ => (Returns (Some (CannotGetConfig err)), Some info,
                    (dialed ++ [Close; LogFinished])%list)
            end
        end
    end
  end.

End MaybeInitiateMongoServer.

(** The call got as far as a session: the dial info it leaves names at most
    one address and the dial with it succeeded. *)
Definition has_session (w : World) (info : option DialInfo) : Prop :=
  ∃ i, info = Some i ∧ (length (Addrs i) <= 1)%nat ∧ dial w i = None.

Definition is_Initiate (ev : event) : bool :=
  match ev with Initiate _ _ _ => true | _ => false end.

Definition is_Dial (ev : event) : bool :=
  match ev with DialWithInfo _ => true | _ => false end.

(** Whether an event is a call of the driver or of [replicaset]. *)
Definition is_call (ev : event) : bool :=
  match ev with
  | DialWithInfo _ | CurrentConfig | Initiate _ _ _ | Close => true
  | _ => false
  end.

(** A server that has no configuration yet and accepts the initiation, and
    the parameters of a bootstrap. *)
Definition ex_world : World :=
  {| dial := λ _, None; currentConfig := inl ErrNotFound;
     initiate := λ _ _ _, None |}.

Definition ex_info : DialInfo :=
  {| Addrs := ["localhost:37017"]; Direct := false; Username := ""; Password := "" |}.

Definition ex_params : InitiateMongoParams :=
  {| DialInfo_ := Some ex_info; MemberHostPort := "10.0.0.1:37017";
     User := "admin"; Password_ := "secret" |}.

Definition ex_two_addresses : InitiateMongoParams :=
  {| DialInfo_ := Some {| Addrs := ["a:37017"; "b:37017"]; Direct := false;
                          Username := ""; Password := "" |};
     MemberHostPort := "10.0.0.1:37017"; User := "admin"; Password_ := "secret" |}.

End peergrouper.

(** * Properties *)

(** The tests of one kind constant against another are decided by
    computation. *)
Ltac kind_tests :=
  repeat match goal with
  | |- context [String.eqb ?a ?b] =>
      first [ change (String.eqb a b) with true
            | change (String.eqb a b) with false ]
  end.

(** ** Validation *)

Lemma joined_true (m : gmap string Z) (u : string) :
  joined m u = true ↔ is_Some (m !! u).
Proof. unfold joined. apply bool_decide_eq_true. Qed.

Lemma joined_false (m : gmap string Z) (u : string) :
  joined m u = false ↔ m !! u = None.
Proof.
  unfold joined. rewrite bool_decide_eq_false. rewrite eq_None_not_Some. done.
Qed.

Lemma size_zero_empty (m : gmap string Z) : Nat.eqb (size m) 0 = true ↔ m = ∅.
Proof. rewrite Nat.eqb_eq. apply map_size_empty_iff. Qed.

Lemma ErrorContextf_inj (c : context) (o1 o2 : option error) :
  ErrorContextf c o1 = ErrorContextf c o2 → o1 = o2.
Proof. destruct o1, o2; simpl; congruence. Qed.

Lemma copy_id (s : State) : copy s = s.
Proof.
  destruct s as [id [m|] cp]; unfold copy; simpl; [|reflexivity].
  f_equal. f_equal.
  induction m as [|k v m Hk Hfold IH] using map_first_key_ind.
  - apply map_fold_empty.
  - rewrite map_fold_insert_first_key by done. by rewrite IH.
Qed.

Lemma State_id (d : StateDir) : State_ d = state d.
Proof. apply copy_id. Qed.

(** The body of [Validate] takes the rule of the specification that
    applies. *)
Lemma Validate_body_spec (s : State) (e : hook.Info) :
  ValidateSpec s e (Validate_body s e).
Proof.
  unfold Validate_body.
  destruct (Z.eqb_spec (hook.RelationId e) (RelationId s)) as [Hid|Hid]; simpl.
  2: { by apply VS_WrongRelation. }
  destruct (Members s) as [m|] eqn:Hm.
  2: { by apply VS_AlreadyBroken. }
  destruct (String.eqb_spec (hook.Kind_ e) hook.RelationBroken) as [Hb|Hb].
  { destruct (Nat.eqb (size m) 0) eqn:Hsz.
    - apply (VS_TeardownOk s e m); auto. by apply size_zero_empty.
    - apply (VS_TeardownUnits s e m); auto.
      intros He. apply size_zero_empty in He. congruence. }
  destruct (String.eqb_spec (ChangedPending s) "") as [Hp|Hp]; simpl.
  2: { destruct (String.eqb_spec (hook.RemoteUnit e) (ChangedPending s)) as [Hu|Hu]; simpl.
       - destruct (String.eqb_spec (hook.Kind_ e) hook.RelationChanged) as [Hk|Hk]; simpl.
         + by apply (VS_PendingOk s e m).
         + apply (VS_PendingRequired s e m); auto. tauto.
       - apply (VS_PendingRequired s e m); auto. tauto. }
  destruct (joined m (hook.RemoteUnit e)) eqn:Hj; simpl.
  - apply joined_true in Hj.
    destruct (String.eqb_spec (hook.Kind_ e) hook.RelationJoined) as [Hk|Hk].
    + by apply (VS_AlreadyJoined s e m).
    + apply (VS_Valid s e m); auto.
  - apply joined_false in Hj.
    destruct (String.eqb_spec (hook.Kind_ e) hook.RelationJoined) as [Hk|Hk]; simpl.
    + apply (VS_Valid s e m); auto.
    + by apply (VS_NotJoined s e m).
Qed.

(** At most one rule applies to a state and an event. *)
Lemma ValidateSpec_functional (s : State) (e : hook.Info) (o1 o2 : option error) :
  ValidateSpec s e o1 → ValidateSpec s e o2 → o1 = o2.
Proof.
  intros H1 H2.
  destruct H1; destruct H2; try reflexivity; try congruence;
    repeat match goal with
    | H : Members _ = Some _, H' : Members _ = Some _ |- _ =>
        rewrite H in H'; injection H' as ->
    | H : is_Some ?x, H' : ?x = None |- _ => rewrite H' in H; by destruct H
    | H : _ ∨ _ |- _ => destruct H
    | H : _ ∧ _ |- _ => destruct H
    end; try congruence; try tauto.
Qed.

Lemma ValidateSpec_Validate (s : State) (e : hook.Info) (o : option error) :
  ValidateSpec s e o →
  Validate s e = ErrorContextf (Inappropriate (hook.Kind_ e) (hook.RemoteUnit e)) o.
Proof.
  intros H. unfold Validate. f_equal.
  eapply ValidateSpec_functional; [apply Validate_body_spec | exact H].
Qed.

(** C1: [Validate] makes its checks in the order of the specification and
    returns the error of the first check that fails. For every state [s] and
    event [e], the outcome [o] that the ordered rules of the specification
    give ([WrongRelation] on another relation id; else
    [RelationAlreadyBroken] on the torn-down sentinel; else, for a teardown,
    nil on empty members and [UnitsStillPresent] otherwise; else, with a
    pending unit, nil for its "changed" and [PendingChangeRequired] for
    anything else; else [AlreadyJoined] for a "joined" of a member,
    [NotJoined] for another kind of a non-member, nil in the remaining
    cases) is what [Validate] returns, under the context of the event, and
    nothing else is. *)
Theorem Validate_checks_in_order (s : State) (e : hook.Info) (o : option error) :
  ValidateSpec s e o
  ↔ Validate s e = ErrorContextf (Inappropriate (hook.Kind_ e) (hook.RemoteUnit e)) o.
Proof.
  split.
  - apply ValidateSpec_Validate.
  - intros H. apply ErrorContextf_inj in H. subst o. apply Validate_body_spec.
Qed.

(** ** The file system calls *)

(** What [os.Remove] has removed is not there any more. *)
Lemma Remove_gone (fs : node) (p : path) (fs' : node) :
  Remove fs p = SysOk fs' → resolve fs' p = SysErr ENOENT.
Proof.
  revert fs fs'. induction p as [|c p IH]; intros fs fs' H; simpl in H; [done|].
  destruct fs as [?|ents]; [done|].
  destruct (ents !! c) as [n|] eqn:Hc; [|done].
  destruct p as [|c' p].
  - assert (fs' = Dir (delete c ents)) as ->.
    { destruct n as [?|sub]; [congruence|]. destruct (Nat.eqb (size sub) 0); congruence. }
    simpl. by rewrite lookup_delete_eq.
  - destruct (Remove n (c' :: p)) as [n'|e] eqn:Hr; [|done].
    injection H as <-. specialize (IH _ _ Hr).
    cbn [resolve]. rewrite lookup_insert_eq. exact IH.
Qed.

(** [os.Remove] reports a missing path exactly when [os.Stat] does. *)
Lemma Remove_ENOENT (fs : node) (p : path) :
  p ≠ [] → (Remove fs p = SysErr ENOENT ↔ resolve fs p = SysErr ENOENT).
Proof.
  revert fs. induction p as [|c p IH]; intros fs Hp; [done|].
  simpl. destruct fs as [?|ents]; [done|].
  destruct (ents !! c) as [n|] eqn:Hc; [|done].
  destruct p as [|c' p].
  - simpl. destruct n as [?|sub]; [done|]. destruct (Nat.eqb (size sub) 0); done.
  - specialize (IH n ltac:(done)).
    destruct (Remove n (c' :: p)) as [n'|e] eqn:Hr.
    + split; [done|]. intros H. apply IH in H. done.
    + rewrite <- IH. split; congruence.
Qed.

Lemma Remove_twice (fs : node) (p : path) (fs' : node) :
  Remove fs p = SysOk fs' → Remove fs' p = SysErr ENOENT.
Proof.
  intros H. apply Remove_ENOENT.
  - intros ->. done.
  - by eapply Remove_gone.
Qed.

Lemma WriteYaml_deep (ents : gmap string node) (c c' : string) (p : path) (di : diskInfo) :
  WriteYaml (Dir ents) (c :: c' :: p) di =
  match ents !! c with
  | None => SysErr ENOENT
  | Some n =>
      match WriteYaml n (c' :: p) di with
      | SysErr e => SysErr e
      | SysOk n' => SysOk (Dir (<[c:=n']> ents))
      end
  end.
Proof. reflexivity. Qed.

Lemma WriteYaml_twice (fs : node) (p : path) (di : diskInfo) (fs' : node) :
  WriteYaml fs p di = SysOk fs' → WriteYaml fs' p di = SysOk fs'.
Proof.
  revert fs fs'. induction p as [|c p IH]; intros fs fs' H; simpl in H; [done|].
  destruct fs as [?|ents]; [done|].
  destruct p as [|c' p].
  - assert (fs' = Dir (<[c:=File (Yaml di)]> ents)) as ->.
    { destruct (ents !! c) as [[?|?]|]; congruence. }
    simpl. rewrite lookup_insert_eq. by rewrite insert_insert_eq.
  - destruct (ents !! c) as [n|] eqn:Hc; [|done].
    destruct (WriteYaml n (c' :: p) di) as [n'|e] eqn:Hw; [|done].
    injection H as <-. specialize (IH _ _ Hw).
    rewrite WriteYaml_deep, lookup_insert_eq, IH.
    by rewrite insert_insert_eq.
Qed.

(** C2: writing the same event twice in succession leaves the file system
    and the cached state as the first write left them. The second call, made
    on the state directory and the file system that the first call left,
    ends as the first did (with the same error, if any) and leaves the same
    state directory and the same file system; this covers the writes that
    fail and the write that panics on a torn-down state. *)
Theorem Write_twice (d : StateDir) (fs : node) (e : hook.Info) :
  Write (Write d fs e).1.2 (Write d fs e).2 e = Write d fs e.
Proof.
  assert (Hdel : ∀ m : option (gmap string Z),
            delete (hook.RemoteUnit e) <$> (delete (hook.RemoteUnit e) <$> m)
            = delete (hook.RemoteUnit e) <$> m).
  { intros [m|]; simpl; [|done]. by rewrite delete_delete_eq. }
  unfold Write, with_state, with_Members.
  destruct (String.eqb (hook.Kind_ e) hook.RelationBroken) eqn:Hb.
  { destruct (Remove fs (path_ d)) as [fs'|err] eqn:Hr.
    - cbn [fst snd path_ state]. by rewrite (Remove_twice _ _ _ Hr).
    - destruct err; cbn [fst snd path_ state IsNotExist negb]; by rewrite Hr. }
  destruct (String.eqb (hook.Kind_ e) hook.RelationDeparted) eqn:Hd.
  { destruct (Remove fs _) as [fs'|err] eqn:Hr.
    - cbn [fst snd path_ state Members RelationId ChangedPending].
      rewrite (Remove_twice _ _ _ Hr). cbn [IsNotExist negb]. by rewrite Hdel.
    - destruct err;
        cbn [fst snd path_ state Members RelationId ChangedPending IsNotExist negb];
        rewrite Hr; cbn [IsNotExist negb]; by rewrite ?Hdel. }
  destruct (WriteYaml fs _ _) as [fs'|err] eqn:Hw.
  - destruct (Members (state d)) as [m|] eqn:Hm.
    + cbn [fst snd path_ state Members RelationId ChangedPending].
      rewrite (WriteYaml_twice _ _ _ _ Hw). by rewrite insert_insert_eq.
    + cbn [fst snd]. by rewrite (WriteYaml_twice _ _ _ _ Hw), Hm.
  - cbn [fst snd]. by rewrite Hw.
Qed.

(** ** Departure of a unit *)

Lemma Remove_tolerated (fs : node) (p : path) :
  Remove fs p = SysErr ENOENT → resolve fs p = SysErr ENOENT.
Proof.
  intros H. apply Remove_ENOENT; [|done]. intros ->. done.
Qed.

Lemma IsNotExist_true (e : errno) : IsNotExist e = true ↔ e = ENOENT.
Proof. destruct e; simpl; split; congruence. Qed.

(** C7: writing a "unit departed" event for unit [u] leaves the pending
    unit of the cached state as it was, also when [u] is the pending unit.
    When the write returns nil, [u] is no member any more (a nil map stays
    nil) and nothing is left at the path of the record file of [u]; a record
    file that is already absent is tolerated: the write returns nil and the
    file system is unchanged. A write that returns an error changes
    nothing. *)
Theorem departed_write_keeps_pending (d : StateDir) (fs : node) (e : hook.Info) :
  hook.Kind_ e = hook.RelationDeparted →
  let u := hook.RemoteUnit e in
  let p := Join (path_ d) (Replace1 u slash hyphen) in
  let r := Write d fs e in
  ChangedPending (state r.1.2) = ChangedPending (state d)
  ∧ (r.1.1 = Return None →
     Members (state r.1.2) = delete u <$> Members (state d)
     ∧ resolve r.2 p = SysErr ENOENT)
  ∧ (resolve fs p = SysErr ENOENT → r.1.1 = Return None ∧ r.2 = fs)
  ∧ (r.1.1 ≠ Return None → r.1.2 = d ∧ r.2 = fs).
Proof.
  intros Hk u p r. subst r. unfold Write. rewrite Hk. 
  kind_tests.
  cbv iota. fold u. fold p.
  destruct (Remove fs p) as [fs'|err] eqn:Hr.
  - cbn [fst snd state with_state with_Members ChangedPending Members].
    split; [done|]. split; [|split].
    + intros _. split; [done|]. by eapply Remove_gone.
    + intros Hn. split; [done|]. apply Remove_ENOENT in Hn; [congruence|].
      intros Hp. rewrite Hp in Hr. done.
    + done.
  - destruct (IsNotExist err) eqn:He; cbn [negb fst snd state with_state with_Members ChangedPending Members].
    + apply IsNotExist_true in He. subst err.
      split; [done|]. split; [|split]; [| done | done].
      intros _. split; [done|]. by apply Remove_tolerated.
    + split; [done|]. split; [done|]. split; [|done].
      intros Hn. apply Remove_ENOENT in Hn.
      * rewrite Hn in Hr. injection Hr as <-. done.
      * intros Hp. rewrite Hp in Hn. done.
Qed.

Lemma departed_write_witness :
  ChangedPending (state ex_dir_joined) = "wordpress/0"
  ∧ ChangedPending (state (Write ex_dir_joined ex_fs_joined ex_departed).1.2) = "wordpress/0"
  ∧ Members (state (Write ex_dir_joined ex_fs_joined ex_departed).1.2) = Some ∅.
Proof.
  destruct (departed_write_keeps_pending ex_dir_joined ex_fs_joined ex_departed eq_refl)
    as (Hcp & Hok & _).
  split; [reflexivity|]. split.
  - rewrite Hcp. reflexivity.
  - destruct Hok as [Hm _]; [reflexivity|]. rewrite Hm. vm_compute. reflexivity.
Defined.

(** ** Missing directories, teardown, and the event after a join *)

Lemma ReadStateDir_missing (fs : node) (dirPath : path) (id : Z) :
  Stat fs (Join dirPath (Itoa id)) = SysErr ENOENT →
  ReadStateDir fs dirPath id = Ok (fresh dirPath id).
Proof. intros H. unfold ReadStateDir, fresh. cbn [path_]. rewrite H. reflexivity. Qed.

Lemma ReadAllStateDirs_missing (fs : node) (dirPath : path) :
  Stat fs dirPath = SysErr ENOENT → ReadAllStateDirs fs dirPath = Ok None.
Proof. intros H. unfold ReadAllStateDirs. rewrite H. reflexivity. Qed.

(** C9: a missing directory is no error. When the subdirectory of the
    relation does not exist ([os.Stat] reports that it does not),
    [ReadStateDir] returns the fresh state directory: the relation id, an
    empty members map that is not nil, no pending unit. When the root path
    does not exist, [ReadAllStateDirs] returns a result without entries and
    no error. *)
Theorem missing_directory_is_no_error (fs : node) (dirPath : path) (id : Z) :
  (Stat fs (Join dirPath (Itoa id)) = SysErr ENOENT →
   ReadStateDir fs dirPath id = Ok (fresh dirPath id))
  ∧ (Stat fs dirPath = SysErr ENOENT →
     ∃ dirs, ReadAllStateDirs fs dirPath = Ok dirs ∧ entries_of dirs = ∅).
Proof.
  split.
  - apply ReadStateDir_missing.
  - intros H. exists None. split; [by apply ReadAllStateDirs_missing | reflexivity].
Qed.

Lemma missing_directory_witness :
  ReadStateDir ex_fs_bare ex_root 7 = Ok (fresh ex_root 7)
  ∧ ∃ dirs, ReadAllStateDirs ex_fs_bare ex_root = Ok dirs ∧ entries_of dirs = ∅.
Proof.
  destruct (missing_directory_is_no_error ex_fs_bare ex_root 7) as [H1 H2].
  split; [apply H1; reflexivity | apply H2; reflexivity].
Defined.

Lemma ReadStateDir_loaded (fs : node) (dirPath : path) (id : Z) (d : StateDir) :
  ReadStateDir fs dirPath id = Ok d →
  path_ d = Join dirPath (Itoa id)
  ∧ RelationId (state d) = id
  ∧ ∃ m, Members (state d) = Some m.
Proof.
  unfold ReadStateDir, fresh. cbn [path_].
  destruct (Stat fs _) as [n|e].
  - destruct (ReadDir fs _) as [fis|e]; [|done].
    destruct (readEntries _ _ _ _ _) as [[m cp]|e]; [|done].
    simpl. intros [= <-]. simpl. eauto.
  - destruct (IsNotExist e); [|done]. simpl. intros [= <-]. simpl. eauto.
Qed.

(** C10: a state directory that [ReadStateDir] returns has a members map
    that is not nil. The torn-down sentinel is not read back: once a
    teardown event has been written through a state directory of the same
    path, at any later time, the cached members are nil, and [ReadStateDir]
    on the file system that the write left returns the fresh state
    directory. *)
Theorem torn_down_is_not_reloaded (fs : node) (dirPath : path) (id : Z) (d : StateDir) :
  ReadStateDir fs dirPath id = Ok d →
  Members (state d) ≠ None
  ∧ ∀ (d1 : StateDir) (fs1 : node) (e : hook.Info) (d' : StateDir) (fs' : node),
      path_ d1 = path_ d →
      hook.Kind_ e = hook.RelationBroken →
      Write d1 fs1 e = (Return None, d', fs') →
      Members (state d') = None
      ∧ ReadStateDir fs' dirPath id = Ok (fresh dirPath id).
Proof.
  intros Hread. destruct (ReadStateDir_loaded _ _ _ _ Hread) as (Hp & _ & m & Hm).
  split; [congruence|].
  intros d1 fs1 e d' fs' Hp1 Hk. unfold Write. rewrite Hk.
  kind_tests. cbv iota.
  rewrite Hp1, Hp.
  destruct (Remove fs1 _) as [fs2|err] eqn:Hr.
  - intros [= <- <-]. split; [done|].
    apply ReadStateDir_missing. by eapply Remove_gone.
  - destruct (IsNotExist err) eqn:He; simpl; [|done].
    intros [= <- <-]. split; [done|].
    apply ReadStateDir_missing. destruct err; try done.
    apply Remove_ENOENT; [|done]. intros Hnil. rewrite Hnil in Hr. done.
Qed.

Lemma torn_down_witness :
  Members (state ex_dir) ≠ None
  ∧ Members (state (Write ex_dir ex_fs ex_broken).1.2) = None
  ∧ ReadStateDir (Write ex_dir ex_fs ex_broken).2 ex_root 7 = Ok (fresh ex_root 7).
Proof.
  destruct (torn_down_is_not_reloaded ex_fs ex_root 7 ex_dir eq_refl) as [H1 H2].
  split; [exact H1|].
  apply (H2 ex_dir ex_fs ex_broken); reflexivity.
Defined.

Lemma Write_joined_state (d : StateDir) (fs : node) (e : hook.Info) (d' : StateDir) (fs' : node) :
  hook.Kind_ e = hook.RelationJoined →
  Write d fs e = (Return None, d', fs') →
  RelationId (state d') = RelationId (state d)
  ∧ ChangedPending (state d') = hook.RemoteUnit e
  ∧ ∃ m, Members (state d) = Some m
       ∧ Members (state d') = Some (<[hook.RemoteUnit e:=hook.ChangeVersion e]> m).
Proof.
  intros Hk. unfold Write. rewrite Hk.
  kind_tests.
  cbv iota.
  destruct (WriteYaml _ _ _) as [fs2|err]; [|done].
  destruct (Members (state d)) as [m|] eqn:Hm; [|done].
  intros [= <- <-]. simpl. eauto.
Qed.

(** C5, amended: once a "joined" event for a unit [u] with a non-empty name
    has been written, [Validate] accepts, among the events with the id of
    the relation, the "changed" event for [u] and nothing else; it rejects
    the teardown event with [UnitsStillPresent], and every other event,
    also for another unit, with [PendingChangeRequired] naming [u]. *)
Theorem after_joined_only_changed (d : StateDir) (fs : node) (ej : hook.Info)
    (d' : StateDir) (fs' : node) (e : hook.Info) :
  hook.Kind_ ej = hook.RelationJoined →
  hook.RemoteUnit ej ≠ "" →
  Write d fs ej = (Return None, d', fs') →
  hook.RelationId e = RelationId (state d') →
  Validate (State_ d') e =
    ErrorContextf (Inappropriate (hook.Kind_ e) (hook.RemoteUnit e))
      (if decide (hook.Kind_ e = hook.RelationBroken) then Some UnitsStillPresent
       else if decide (hook.Kind_ e = hook.RelationChanged
                       ∧ hook.RemoteUnit e = hook.RemoteUnit ej)
            then None
            else Some (PendingChangeRequired (hook.RemoteUnit ej))).
Proof.
  intros Hk Hu Hw Hid.
  destruct (Write_joined_state _ _ _ _ _ Hk Hw) as (_ & Hcp & m & _ & Hm).
  rewrite State_id. apply ValidateSpec_Validate.
  destruct (decide (hook.Kind_ e = hook.RelationBroken)) as [Hb|Hb].
  - eapply VS_TeardownUnits; eauto. apply insert_non_empty.
  - destruct (decide _) as [[Hc Hue]|Hn].
    + eapply VS_PendingOk; eauto; congruence.
    + rewrite <- Hcp. eapply VS_PendingRequired; eauto; try congruence.
      rewrite Hcp. tauto.
Qed.

Lemma after_joined_witness :
  Validate (State_ ex_dir_joined) (ex_event hook.RelationDeparted "mysql/0" 1)
  = Some (Context (Inappropriate hook.RelationDeparted "mysql/0")
            (PendingChangeRequired "wordpress/0")).
Proof.
  exact (after_joined_only_changed ex_dir ex_fs ex_joined ex_dir_joined ex_fs_joined
           (ex_event hook.RelationDeparted "mysql/0" 1)
           eq_refl ltac:(discriminate) eq_refl eq_refl).
Defined.

(** C5, as stated, fails on the teardown event: after [wordpress/0] has
    joined relation 7, the teardown event of relation 7 is no "changed"
    event for the unit, and it is rejected with [UnitsStillPresent], not
    with [PendingChangeRequired]. *)
Lemma teardown_after_joined_counterexample :
  Write ex_dir ex_fs ex_joined = (Return None, ex_dir_joined, ex_fs_joined)
  ∧ ChangedPending (state ex_dir_joined) = "wordpress/0"
  ∧ hook.RelationId ex_broken = RelationId (state ex_dir_joined)
  ∧ hook.Kind_ ex_broken ≠ hook.RelationChanged
  ∧ Validate (State_ ex_dir_joined) ex_broken
    = Some (Context (Inappropriate hook.RelationBroken "") UnitsStillPresent)
  ∧ Validate (State_ ex_dir_joined) ex_broken
    ≠ Some (Context (Inappropriate hook.RelationBroken "")
              (PendingChangeRequired "wordpress/0")).
Proof.
  repeat split; try (vm_compute; reflexivity); vm_compute; discriminate.
Qed.

(** ** Sequences of events that follow the protocol *)

Lemma Write_broken_ok (d : StateDir) (fs : node) (e : hook.Info) (d' : StateDir) (fs' : node) :
  hook.Kind_ e = hook.RelationBroken →
  Write d fs e = (Return None, d', fs') →
  d' = with_state d (with_Members (state d) None).
Proof.
  intros Hk. unfold Write. rewrite Hk.
  kind_tests. cbv iota.
  destruct (Remove fs _) as [fs2|err]; [by intros [= <- <-]|].
  destruct (IsNotExist err); simpl; [by intros [= <- <-]|done].
Qed.

Lemma Write_departed_ok (d : StateDir) (fs : node) (e : hook.Info) (d' : StateDir) (fs' : node) :
  hook.Kind_ e = hook.RelationDeparted →
  Write d fs e = (Return None, d', fs') →
  d' = with_state d
         (with_Members (state d) (delete (hook.RemoteUnit e) <$> Members (state d))).
Proof.
  intros Hk. unfold Write. rewrite Hk.
  kind_tests. cbv iota.
  destruct (Remove fs _) as [fs2|err]; [by intros [= <- <-]|].
  destruct (IsNotExist err); simpl; [by intros [= <- <-]|done].
Qed.

Lemma Write_put_ok (d : StateDir) (fs : node) (e : hook.Info) (d' : StateDir) (fs' : node) :
  hook.Kind_ e ≠ hook.RelationBroken →
  hook.Kind_ e ≠ hook.RelationDeparted →
  Write d fs e = (Return None, d', fs') →
  ∃ m, Members (state d) = Some m
    ∧ d' = with_state d
             {| RelationId := RelationId (state d);
                Members := Some (<[hook.RemoteUnit e:=hook.ChangeVersion e]> m);
                ChangedPending :=
                  if String.eqb (hook.Kind_ e) hook.RelationJoined
                  then hook.RemoteUnit e else "" |}
    ∧ WriteYaml fs (Join (path_ d) (Replace1 (hook.RemoteUnit e) slash hyphen))
        {| di_ChangeVersion := Some (hook.ChangeVersion e);
           di_ChangedPending := String.eqb (hook.Kind_ e) hook.RelationJoined |}
      = SysOk fs'.
Proof.
  intros Hb Hd. unfold Write.
  apply String.eqb_neq in Hb, Hd. rewrite Hb, Hd.
  destruct (WriteYaml _ _ _) as [fs2|err]; [|done].
  destruct (Members (state d)) as [m|]; [|done].
  intros [= <- <-]. eauto.
Qed.

Lemma Write_no_panic (d : StateDir) (fs : node) (e : hook.Info) (m : gmap string Z) :
  Members (state d) = Some m → (Write d fs e).1.1 ≠ Panic.
Proof.
  intros Hm. unfold Write.
  destruct (String.eqb (hook.Kind_ e) hook.RelationBroken).
  { destruct (Remove fs _) as [?|err]; [done|]. by destruct (IsNotExist err). }
  destruct (String.eqb (hook.Kind_ e) hook.RelationDeparted).
  { destruct (Remove fs _) as [?|err]; [done|]. by destruct (IsNotExist err). }
  destruct (WriteYaml _ _ _); [|done]. by rewrite Hm.
Qed.

Lemma protocol_step_torn_down (p : Protocol) (e : hook.Info) : torn_down p = true → protocol_step p e = None.
Proof. intros H. unfold protocol_step. by rewrite H. Qed.

Lemma protocol_run_torn_down (p : Protocol) (es : list hook.Info) :
  torn_down p = true → is_Some (protocol_run p es) → es = [].
Proof.
  intros H. destruct es as [|e es]; [done|]. simpl.
  rewrite protocol_step_torn_down by done. by intros [? ?].
Qed.

(** An event that the protocol allows passes the validation. *)
Lemma tracks_valid (p : Protocol) (s : State) (e : hook.Info) (p' : Protocol) :
  tracks p s →
  hook.RelationId e = RelationId s →
  protocol_step p e = Some p' →
  Validate s e = None.
Proof.
  intros (Htd & (m & Hm & Hdom) & Hcp & Haw) Hid Hstep.
  change None with (ErrorContextf (Inappropriate (hook.Kind_ e) (hook.RemoteUnit e)) None).
  apply ValidateSpec_Validate.
  unfold protocol_step in Hstep. rewrite Htd in Hstep.
  destruct (decide (hook.Kind_ e = hook.RelationBroken)) as [Hb|Hb].
  { destruct (decide (present p = ∅)) as [He|]; [|done].
    eapply VS_TeardownOk; eauto. apply dom_empty_iff_L. congruence. }
  destruct (awaiting p) as [u|] eqn:Hu; simpl in Hcp.
  - destruct (decide _) as [[Hk Hun]|]; [|done].
    destruct (decide (ChangedPending s = "")) as [Hemp|Hne].
    + eapply VS_Valid; eauto. left. split.
      * apply elem_of_dom. rewrite Hdom, Hun. by apply Haw.
      * rewrite Hk. done.
    + eapply VS_PendingOk; eauto. congruence.
  - destruct (decide (hook.Kind_ e = hook.RelationJoined)) as [Hj|Hj].
    { destruct (decide (_ ∈ _)) as [|Hnin]; [done|].
      eapply VS_Valid; eauto. right. split; [|done].
      apply not_elem_of_dom. by rewrite Hdom. }
    destruct (decide (hook.Kind_ e = hook.RelationChanged)) as [Hc|Hc].
    { destruct (decide (_ ∈ _)) as [Hin|]; [|done].
      eapply VS_Valid; eauto. left. split; [|done].
      apply elem_of_dom. by rewrite Hdom. }
    destruct (decide (hook.Kind_ e = hook.RelationDeparted)) as [Hd|Hd]; [|done].
    destruct (decide (_ ∈ _)) as [Hin|]; [|done].
    eapply VS_Valid; eauto. left. split; [|done].
    apply elem_of_dom. by rewrite Hdom.
Qed.

Lemma union_singleton_in (x : string) (X : gset string) : x ∈ X → {[x]} ∪ X = X.
Proof. intros H. apply subseteq_union_1_L. by apply singleton_subseteq_l. Qed.

(** A successful write moves the cached state along with the protocol. *)
Lemma tracks_written (p : Protocol) (d : StateDir) (fs : node) (e : hook.Info)
    (p' : Protocol) (d' : StateDir) (fs' : node) :
  tracks p (state d) →
  protocol_step p e = Some p' →
  Write d fs e = (Return None, d', fs') →
  RelationId (state d') = RelationId (state d)
  ∧ (torn_down p' = true ∨ tracks p' (state d')).
Proof.
  intros (Htd & (m & Hm & Hdom) & Hcp & Haw) Hstep Hw.
  unfold protocol_step in Hstep. rewrite Htd in Hstep.
  destruct (decide (hook.Kind_ e = hook.RelationBroken)) as [Hb|Hb].
  { destruct (decide (present p = ∅)); [|done]. injection Hstep as <-.
    rewrite (Write_broken_ok _ _ _ _ _ Hb Hw). simpl. auto. }
  destruct (awaiting p) as [u|] eqn:Hu; simpl in Hcp.
  - destruct (decide _) as [[Hk Hun]|]; [|done]. injection Hstep as <-.
    destruct (Write_put_ok d fs e d' fs') as (m' & Hm' & -> & _); auto.
    { rewrite Hk. done. }
    rewrite Hm in Hm'. injection Hm' as <-. rewrite Hk. simpl.
    split; [done|]. right. repeat split; simpl; [|done].
    eexists. split; [done|]. rewrite dom_insert_L, Hdom.
    specialize (Haw u eq_refl). rewrite Hun. by apply union_singleton_in.
  - destruct (decide (hook.Kind_ e = hook.RelationJoined)) as [Hj|Hj].
    { destruct (decide (_ ∈ _)) as [|Hnin]; [done|]. injection Hstep as <-.
      destruct (Write_put_ok d fs e d' fs') as (m' & Hm' & -> & _); auto.
      { rewrite Hj. done. }
      rewrite Hm in Hm'. injection Hm' as <-. rewrite Hj. simpl.
      split; [done|]. right. repeat split; simpl.
      - eexists. split; [done|]. by rewrite dom_insert_L, Hdom.
      - intros u [= <-]. clear. set_solver. }
    destruct (decide (hook.Kind_ e = hook.RelationChanged)) as [Hc|Hc].
    { destruct (decide (_ ∈ _)) as [Hin|]; [|done]. injection Hstep as <-.
      destruct (Write_put_ok d fs e d' fs') as (m' & Hm' & -> & _); auto.
      { rewrite Hc. done. }
      rewrite Hm in Hm'. injection Hm' as <-. rewrite Hc. simpl.
      split; [done|]. right. repeat split; simpl; [done| |by rewrite Hu|by rewrite Hu].
      eexists. split; [done|]. rewrite dom_insert_L, Hdom. by apply union_singleton_in. }
    destruct (decide (hook.Kind_ e = hook.RelationDeparted)) as [Hd|Hd]; [|done].
    destruct (decide (_ ∈ _)) as [Hin|]; [|done]. injection Hstep as <-.
    rewrite (Write_departed_ok _ _ _ _ _ Hd Hw). simpl. rewrite Hm. simpl.
    split; [done|]. right. repeat split; simpl; [|done|done].
    eexists. split; [done|]. rewrite dom_delete_L, Hdom. done.
Qed.

Lemma run_from_protocol (n : nat) (p : Protocol) (d : StateDir) (fs : node)
    (es : list hook.Info) :
  tracks p (state d) →
  Forall (λ e, hook.RelationId e = RelationId (state d)) es →
  is_Some (protocol_run p es) →
  (∃ d' fs', run_from n d fs es = Completed d' fs')
  ∨ (∃ k err, run_from n d fs es = WriteFailed k err).
Proof.
  revert n p d fs. induction es as [|e es IH]; intros n p d fs Ht Hids Hrun.
  { left. simpl. eauto. }
  simpl in Hrun. destruct (protocol_step p e) as [p'|] eqn:Hstep; [|by destruct Hrun].
  apply Forall_cons in Hids as [Hid Hids].
  simpl. rewrite State_id. rewrite (tracks_valid _ _ _ _ Ht Hid Hstep).
  destruct (Write d fs e) as [[o d'] fs'] eqn:Hw.
  destruct o as [[err|]|].
  - right. eauto.
  - destruct (tracks_written _ _ _ _ _ _ _ Ht Hstep Hw) as [Hrid [Htd|Ht']].
    + apply protocol_run_torn_down in Hrun as ->; [|done]. left. simpl. eauto.
    + apply (IH (S n) p'); [done| |done]. by rewrite Hrid.
  - destruct Ht as (_ & (m & Hm & _) & _).
    pose proof (Write_no_panic d fs e m Hm) as Hp. rewrite Hw in Hp. done.
Qed.

(** C4, amended: a sequence of events that is valid under the relation-wide
    protocol (a unit joins, its "changed" follows at once, before any other
    event of the relation, then it changes and departs; teardown once no
    unit is left, and nothing after it) never fails the validation. From a
    state directory whose state stands at a
    point of the protocol, on any file system, validating and then writing
    each event of a sequence that the protocol allows from that point, all
    carrying the id of the relation, never ends in a validation error (nor
    in a panic): the loop completes, or stops at a write that the file
    system refuses. *)
Theorem valid_sequence_passes_validation (p : Protocol) (d : StateDir) (fs : node)
    (es : list hook.Info) :
  tracks p (state d) →
  Forall (λ e, hook.RelationId e = RelationId (state d)) es →
  is_Some (protocol_run p es) →
  (∀ k err, run d fs es ≠ ValidationFailed k err)
  ∧ (∀ k, run d fs es ≠ WritePanicked k).
Proof.
  intros Ht Hids Hrun.
  destruct (run_from_protocol 0 p d fs es Ht Hids Hrun)
    as [(d' & fs' & Hr)|(k & err & Hr)]; unfold run; rewrite Hr; done.
Qed.

Lemma tracks_start (dirPath : path) (id : Z) :
  tracks protocol_start (state (fresh dirPath id)).
Proof.
  repeat split; simpl; [|done].
  exists ∅. split; [done|]. apply dom_empty_L.
Qed.

Lemma valid_sequence_witness :
  is_Some (protocol_run protocol_start [ex_joined; ex_changed; ex_departed; ex_broken])
  ∧ (∀ k err, run ex_dir ex_fs [ex_joined; ex_changed; ex_departed; ex_broken]
              ≠ ValidationFailed k err)
  ∧ (∀ k, run ex_dir ex_fs [ex_joined; ex_changed; ex_departed; ex_broken]
          ≠ WritePanicked k).
Proof.
  assert (Hrun : is_Some (protocol_run protocol_start
                            [ex_joined; ex_changed; ex_departed; ex_broken])).
  { vm_compute. eexists. reflexivity. }
  split; [exact Hrun|].
  apply (valid_sequence_passes_validation protocol_start ex_dir ex_fs).
  - apply (tracks_start ex_root 7).
  - repeat constructor.
  - exact Hrun.
Defined.

(** The relation-wide protocol is the protocol unit by unit with one more
    demand, that nothing comes between a join and the unit's first
    "changed": what it allows, the protocol unit by unit allows. *)
Lemma protocol_step_unit_protocol (p p' : Protocol) (q : UnitProtocol)
    (e : hook.Info) :
  same_units p q → protocol_step p e = Some p' →
  ∃ q', unit_protocol_step q e = Some q' ∧ same_units p' q'.
Proof.
  intros (Hend & Hdom & Hawait). unfold protocol_step, unit_protocol_step.
  rewrite <- Hend. destruct (torn_down p) eqn:Htd; [done|].
  destruct (decide (hook.Kind_ e = hook.RelationBroken)) as [Hb|Hb].
  { destruct (decide (present p = ∅)) as [He|]; [|done]. intros [= <-].
    rewrite He in Hdom. apply dom_empty_inv_L in Hdom. rewrite Hdom.
    rewrite map_size_empty. simpl. eexists. split; [done|].
    split; [done|]. simpl. split; [by rewrite dom_empty_L, He|].
    intros u. rewrite <- Hawait, Hdom. done. }
  assert (Hin : ∀ u, u ∈ present p ↔ is_Some (phases q !! u)).
  { intros u. by rewrite <- Hdom, elem_of_dom. }
  destruct (awaiting p) as [u|] eqn:Ha.
  - destruct (decide _) as [[Hk Hu]|]; [|done]. intros [= <-].
    rewrite Hu, (proj2 (Hawait u) eq_refl). rewrite decide_True by done.
    eexists. split; [done|]. split; [simpl; congruence|]. simpl.
    split.
    + rewrite dom_insert_L, Hdom. apply union_singleton_in.
      apply Hin. rewrite (proj2 (Hawait u) eq_refl). eauto.
    + intros u'. split; [|done]. intros Hl.
      destruct (decide (u' = u)) as [->|Hne].
      * by rewrite lookup_insert_eq in Hl.
      * rewrite lookup_insert_ne in Hl by done. apply Hawait in Hl. congruence.
  - assert (Hsettled : ∀ u, is_Some (phases q !! u) → phases q !! u = Some Settled).
    { intros u [[|] Hu]; [|done]. apply Hawait in Hu. done. }
    destruct (decide (hook.Kind_ e = hook.RelationJoined)) as [Hj|Hj].
    { destruct (decide (hook.RemoteUnit e ∈ present p)) as [|Hout]; [done|].
      intros [= <-].
      assert (Hnone : phases q !! hook.RemoteUnit e = None).
      { apply eq_None_not_Some. by rewrite <- Hin. }
      rewrite Hnone. eexists. split; [done|]. split; [done|]. simpl.
      split; [by rewrite dom_insert_L, Hdom|].
      intros u'. destruct (decide (u' = hook.RemoteUnit e)) as [->|Hne].
      - by rewrite lookup_insert_eq.
      - rewrite lookup_insert_ne by done. split.
        + intros Hl. apply Hawait in Hl. done.
        + intros [= ?]. congruence. }
    destruct (decide (hook.Kind_ e = hook.RelationChanged)) as [Hc|Hc].
    { destruct (decide (hook.RemoteUnit e ∈ present p)) as [Hpres|]; [|done].
      intros [= <-]. rewrite (Hsettled _ (proj1 (Hin _) Hpres)).
      exists q. split; [done|]. split; [simpl; congruence|].
      split; [done|]. intros u. by rewrite Hawait, Ha. }
    destruct (decide (hook.Kind_ e = hook.RelationDeparted)) as [Hd|Hd]; [|done].
    destruct (decide (hook.RemoteUnit e ∈ present p)) as [Hpres|]; [|done].
    intros [= <-]. rewrite (Hsettled _ (proj1 (Hin _) Hpres)).
    eexists. split; [done|]. split; [done|]. simpl.
    split; [by rewrite dom_delete_L, Hdom|].
    intros u'. split; [|done]. intros Hl.
    apply lookup_delete_Some in Hl as [_ Hl]. apply Hawait in Hl. done.
Qed.

Lemma protocol_run_unit_protocol (es : list hook.Info) :
  ∀ (p : Protocol) (q : UnitProtocol),
  same_units p q → is_Some (protocol_run p es) → is_Some (unit_protocol_run q es).
Proof.
  induction es as [|e rest IH]; intros p q Hsame Hrun; [by eexists|].
  cbn [protocol_run unit_protocol_run] in *.
  destruct (protocol_step p e) as [p'|] eqn:Hstep; [|by destruct Hrun].
  destruct (protocol_step_unit_protocol _ _ _ _ Hsame Hstep) as (q' & -> & Hsame').
  by apply (IH p' q').
Qed.

(** C4, as stated, fails when a second unit joins before the first unit has
    had its "changed": the sequence follows the protocol unit by unit, all
    its events are events of relation 7, and the validation refuses the
    second join, because a change is pending for the first unit. *)
Lemma interleaved_joins_counterexample :
  is_Some (unit_protocol_run unit_protocol_start ex_interleaved)
  ∧ Forall (λ e, hook.RelationId e = RelationId (state ex_dir)) ex_interleaved
  ∧ run ex_dir ex_fs ex_interleaved
    = ValidationFailed 1
        (Context (Inappropriate hook.RelationJoined "mysql/3")
           (PendingChangeRequired "wordpress/0"))
  ∧ protocol_run protocol_start ex_interleaved = None.
Proof.
  split; [vm_compute; by eexists|]. split; [repeat constructor|].
  split; vm_compute; reflexivity.
Qed.

(** ** Names of units and of their record files *)

Lemma contains_app (c : ascii) (a b : string) :
  contains c (a ++ b) = contains c a || contains c b.
Proof. induction a as [|x a IH]; simpl; [done|]. rewrite IH. by rewrite orb_assoc. Qed.

Lemma contains_cons (c x : ascii) (s : string) :
  contains c (String x s) = Ascii.eqb x c || contains c s.
Proof. reflexivity. Qed.

Lemma Split_no_sep (s : string) (sep : ascii) :
  contains sep s = false → Split s sep = [s].
Proof.
  induction s as [|a s IH]; simpl; [done|].
  intros H. apply orb_false_iff in H as [Ha Hs]. rewrite Ha, (IH Hs). done.
Qed.

Lemma Join_file (p : path) (name : string) :
  contains slash name = false →
  name ≠ "" → name ≠ "." → name ≠ ".." →
  Join p name = (p ++ [name])%list.
Proof.
  intros Hs H1 H2 H3. unfold Join. rewrite Split_no_sep by done. simpl.
  unfold clean_step.
  apply String.eqb_neq in H1, H2, H3. by rewrite H1, H2, H3.
Qed.

Lemma LastIndex_absent (s : string) (c : ascii) :
  contains c s = false → LastIndex s c = -1.
Proof.
  induction s as [|a s IH]; simpl; [done|].
  intros H. apply orb_false_iff in H as [Ha Hs]. rewrite (IH Hs), Ha. done.
Qed.

Lemma LastIndex_lower (s : string) (c : ascii) : -1 ≤ LastIndex s c.
Proof.
  induction s as [|a s IH]; simpl; [lia|].
  destruct (Z.leb_spec 0 (LastIndex s c)); [lia|]. destruct (Ascii.eqb a c); lia.
Qed.

Lemma LastIndex_app (pre post : string) (c : ascii) :
  contains c post = false →
  LastIndex (pre ++ String c post) c = Z.of_nat (String.length pre).
Proof.
  intros Hpost. induction pre as [|a pre IH].
  - simpl. rewrite (LastIndex_absent _ _ Hpost). simpl. by rewrite Ascii.eqb_refl.
  - simpl. rewrite IH.
    destruct (Z.leb_spec 0 (Z.of_nat (String.length pre))); lia.
Qed.

Lemma LastIndex_found (s : string) (c : ascii) :
  LastIndex s c ≠ -1 →
  ∃ pre post, s = pre ++ String c post
              ∧ contains c post = false
              ∧ LastIndex s c = Z.of_nat (String.length pre).
Proof.
  induction s as [|a s IH]; [done|]. cbn [LastIndex].
  destruct (Z.leb_spec 0 (LastIndex s c)) as [Hge|Hlt].
  - intros _. destruct IH as (pre & post & -> & Hpost & Hi); [lia|].
    exists (String a pre), post. repeat split; [done|].
    rewrite Hi. cbn [String.length]. lia.
  - destruct (Ascii.eqb_spec a c) as [->|Hne]; [|done].
    intros _. exists "", s. repeat split.
    destruct (contains c s) eqn:Hc; [|done].
    exfalso. clear IH. revert Hlt. 
    assert (0 ≤ LastIndex s c); [|lia].
    clear -Hc. induction s as [|b s IH]; [done|]. cbn [LastIndex].
    simpl in Hc. destruct (Z.leb_spec 0 (LastIndex s c)); [lia|].
    destruct (Ascii.eqb b c); [lia|]. simpl in Hc. specialize (IH Hc). lia.
Qed.

Lemma slice_to_app (pre post : string) :
  slice_to (pre ++ post) (String.length pre) = pre.
Proof.
  induction pre as [|a pre IH]; simpl; [by destruct post|]. by rewrite IH.
Qed.

Lemma slice_from_app (pre post : string) :
  slice_from (pre ++ post) (String.length pre) = post.
Proof. induction pre as [|a pre IH]; simpl; [by destruct post|]. done. Qed.

Lemma slice_from_next (pre post : string) (c : ascii) :
  slice_from (pre ++ String c post) (S (String.length pre)) = post.
Proof. induction pre as [|a pre IH]; [by destruct post|]. exact IH. Qed.

Lemma unitOfEntry_build (svc uid : string) :
  contains hyphen uid = false →
  is_Some (Atoi uid) →
  unitOfEntry (svc ++ String hyphen uid) = Some (svc ++ "/" ++ uid)%string.
Proof.
  intros Hh [n Hn]. unfold unitOfEntry.
  rewrite (LastIndex_app _ _ _ Hh).
  destruct (Z.eqb_spec (Z.of_nat (String.length svc)) (-1)) as [|_]; [lia|].
  rewrite Nat2Z.id.
  replace (Z.to_nat (Z.of_nat (String.length svc) + 1)) with (S (String.length svc)) by lia.
  rewrite slice_to_app, slice_from_next, Hn. done.
Qed.

Lemma unitOfEntry_inv (name u : string) :
  unitOfEntry name = Some u →
  ∃ svc uid, name = svc ++ String hyphen uid
             ∧ u = (svc ++ "/" ++ uid)%string
             ∧ contains hyphen uid = false
             ∧ is_Some (Atoi uid).
Proof.
  unfold unitOfEntry.
  destruct (Z.eqb_spec (LastIndex name hyphen) (-1)) as [|Hne]; [done|].
  destruct (LastIndex_found _ _ Hne) as (pre & post & -> & Hpost & Hi).
  rewrite Hi, Nat2Z.id.
  replace (Z.to_nat (Z.of_nat (String.length pre) + 1)) with (S (String.length pre)) by lia.
  rewrite slice_to_app, slice_from_next.
  destruct (Atoi post) as [n|] eqn:Hn; [|done].
  intros [= <-]. exists pre, post. repeat split; [done|]. by exists n.
Qed.

Lemma digit_not (a c : ascii) :
  is_Some (digit a) → (Z.of_N (N_of_ascii c) < 48 ∨ 57 < Z.of_N (N_of_ascii c)) →
  Ascii.eqb a c = false.
Proof.
  unfold digit. intros [d Hd] Hc.
  destruct (Ascii.eqb_spec a c) as [->|]; [|done].
  destruct (Z.leb_spec 48 (Z.of_N (N_of_ascii c))), (Z.leb_spec (Z.of_N (N_of_ascii c)) 57);
    simpl in Hd; try done; lia.
Qed.

Lemma digits_contains (s : string) (acc : Z) (c : ascii) :
  is_Some (digits s acc) →
  (Z.of_N (N_of_ascii c) < 48 ∨ 57 < Z.of_N (N_of_ascii c)) →
  contains c s = false.
Proof.
  revert acc. induction s as [|a s IH]; intros acc; simpl; [done|].
  destruct (digit a) as [d|] eqn:Hd; [|by intros [? ?]].
  intros Hs Hc. rewrite (digit_not a c); [|by rewrite Hd|done].
  simpl. by eapply IH.
Qed.

Lemma Atoi_no_slash (s : string) : is_Some (Atoi s) → contains slash s = false.
Proof.
  unfold Atoi. destruct s as [|a s]; [by intros [? ?]|].
  assert (Hsl : Z.of_N (N_of_ascii slash) < 48 ∨ 57 < Z.of_N (N_of_ascii slash)).
  { left. vm_compute. done. }
  destruct (Ascii.eqb a "+" || Ascii.eqb a "-")%char eqn:Hsign.
  - destruct s as [|b s]; [by intros [? ?]|].
    destruct (digits (String b s) 0) as [un|] eqn:Hd; [|by intros [? ?]].
    intros _. rewrite contains_cons.
    rewrite (digits_contains (String b s) 0 slash); [|by rewrite Hd|done].
    apply orb_true_iff in Hsign as [H|H]; apply Ascii.eqb_eq in H; subst a; done.
  - destruct (digits (String a s) 0) as [un|] eqn:Hd; [|by intros [? ?]].
    intros _. apply (digits_contains _ 0); [by rewrite Hd|done].
Qed.

Lemma contains_middle (c : ascii) (s t : string) :
  contains c (s ++ String c t) = true.
Proof.
  rewrite contains_app, contains_cons, Ascii.eqb_refl. apply orb_true_r.
Qed.

Lemma split_last_slash (s1 t1 s2 t2 : string) :
  contains slash t1 = false → contains slash t2 = false →
  s1 ++ String slash t1 = s2 ++ String slash t2 →
  s1 = s2 ∧ t1 = t2.
Proof.
  intros H1 H2. revert s2. induction s1 as [|a s1 IH]; intros [|b s2]; simpl.
  - by intros [= ->].
  - intros [= <- ->]. by rewrite contains_middle in H1.
  - intros [= -> <-]. by rewrite contains_middle in H2.
  - intros [= -> Heq]. destruct (IH _ Heq) as [-> ->]. done.
Qed.

Lemma unitOfEntry_inj (name1 name2 u : string) :
  unitOfEntry name1 = Some u → unitOfEntry name2 = Some u → name1 = name2.
Proof.
  intros H1 H2.
  apply unitOfEntry_inv in H1 as (s1 & t1 & -> & -> & _ & Ha1).
  apply unitOfEntry_inv in H2 as (s2 & t2 & -> & Hu & _ & Ha2).
  apply Atoi_no_slash in Ha1, Ha2.
  destruct (split_last_slash s1 t1 s2 t2 Ha1 Ha2 Hu) as [-> ->]. done.
Qed.

Lemma unitOfEntry_nonempty (name u : string) : unitOfEntry name = Some u → u ≠ "".
Proof.
  intros H. apply unitOfEntry_inv in H as (s & t & _ & -> & _). by destruct s.
Qed.

Lemma unitOfEntry_name (name u : string) :
  unitOfEntry name = Some u → name ≠ "" ∧ name ≠ "." ∧ name ≠ "..".
Proof.
  intros H. apply unitOfEntry_inv in H as (s & t & -> & _).
  destruct s as [|a [|b [|c s]]]; simpl; repeat split; try done;
    intros [=]; subst; done.
Qed.

Lemma Replace1_unit (svc num : string) :
  contains slash svc = false →
  Replace1 (svc ++ "/" ++ num) slash hyphen = svc ++ String hyphen num.
Proof.
  induction svc as [|a svc IH]; simpl; [done|].
  intros H. apply orb_false_iff in H as [Ha Hs]. rewrite Ha, (IH Hs). done.
Qed.

(** The record file of a unit name, and the unit name read off it. *)
Lemma UnitName_file (u : string) :
  UnitName u →
  let name := Replace1 u slash hyphen in
  unitOfEntry name = Some u ∧ contains slash name = false.
Proof.
  intros (svc & num & -> & Hsvc & Hnum & Hatoi). simpl.
  rewrite (Replace1_unit _ _ Hsvc). split.
  - by apply unitOfEntry_build.
  - rewrite contains_app, Hsvc. simpl. by apply Atoi_no_slash.
Qed.

(** ** The loop of [ReadStateDir] *)

Section read_entries.

Variables (fs : node) (dpath : path).

Lemma record_at_functional (name : string) (v1 v2 : Z) (b1 b2 : bool) :
  record_at fs dpath name v1 b1 → record_at fs dpath name v2 b2 → v1 = v2 ∧ b1 = b2.
Proof. unfold record_at. intros H1 H2. rewrite H1 in H2. by injection H2. Qed.

(** What a successful run of the loop has seen, from any members and
    pending unit that it starts with. *)
Lemma readEntries_sound (l : list string) :
  NoDup l →
  ∀ (m0 : gmap string Z) (cp0 : string) (m : gmap string Z) (cp : string),
  readEntries fs dpath l m0 cp0 = Ok (m, cp) →
  (∀ name u, name ∈ l → unitOfEntry name = Some u →
     ∃ v b, record_at fs dpath name v b ∧ m !! u = Some v
            ∧ (b = true → cp = u ∧ cp0 = ""))
  ∧ (∀ u, (∀ name, name ∈ l → unitOfEntry name ≠ Some u) → m !! u = m0 !! u)
  ∧ (cp = cp0
     ∨ (cp0 = "" ∧ ∃ name v, name ∈ l ∧ unitOfEntry name = Some cp
                              ∧ record_at fs dpath name v true)).
Proof.
  induction 1 as [|name0 rest Hnotin Hnodup IH]; intros m0 cp0 m cp Hread.
  { injection Hread as <- <-. split; [|split]; [|done|by left].
    intros name u Hin. by apply elem_of_nil in Hin. }
  cbn [readEntries] in Hread.
  destruct (unitOfEntry name0) as [u0|] eqn:Hu0.
  2: { destruct (IH _ _ _ _ Hread) as (I1 & I2 & I3). split; [|split].
       - intros name u [->|Hin]%elem_of_cons Hu; [congruence|]. by apply I1.
       - intros u Hnone. apply I2. intros name Hin. apply Hnone. by right.
       - destruct I3 as [->|(-> & name & v & Hin & Hu & Hrec)]; [by left|].
         right. split; [done|]. exists name, v. split; [by right|done]. }
  destruct (ReadYaml fs (Join dpath name0)) as [[[v0|] b0]|err] eqn:Hyaml;
    cbn [di_ChangeVersion di_ChangedPending] in Hread; try done.
  assert (Hfresh : ∀ name, name ∈ rest → unitOfEntry name ≠ Some u0).
  { intros name Hin Hu. apply Hnotin.
    by rewrite (unitOfEntry_inj _ _ _ Hu0 Hu). }
  pose proof (unitOfEntry_nonempty _ _ Hu0) as Hne.
  destruct b0.
  - destruct (String.eqb_spec cp0 "") as [->|]; [|done]. simpl in Hread.
    destruct (IH _ _ _ _ Hread) as (I1 & I2 & I3).
    assert (cp = u0) as ->.
    { destruct I3 as [|[? _]]; [done|congruence]. }
    split; [|split].
    + intros name u [->|Hin]%elem_of_cons Hu.
      * assert (u = u0) as -> by congruence. exists v0, true.
        split; [done|]. split; [|done].
        rewrite (I2 u0 Hfresh). apply lookup_insert_eq.
      * destruct (I1 name u Hin Hu) as (v & b & Hrec & Hm & Hb).
        exists v, b. split; [done|]. split; [done|].
        intros Hbt. destruct (Hb Hbt) as [_ ?]. done.
    + intros u Hnone. rewrite I2.
      * apply lookup_insert_ne. intros <-. apply (Hnone name0); [by left|done].
      * intros name Hin. apply Hnone. by right.
    + right. split; [done|]. exists name0, v0. split; [by left|done].
  - destruct (IH _ _ _ _ Hread) as (I1 & I2 & I3). split; [|split].
    + intros name u [->|Hin]%elem_of_cons Hu.
      * assert (u = u0) as -> by congruence. exists v0, false.
        split; [done|]. split; [|done].
        rewrite (I2 u0 Hfresh). apply lookup_insert_eq.
      * by apply I1.
    + intros u Hnone. rewrite I2.
      * apply lookup_insert_ne. intros <-. apply (Hnone name0); [by left|done].
      * intros name Hin. apply Hnone. by right.
    + destruct I3 as [->|(-> & name & v & Hin & Hu & Hrec)]; [by left|].
      right. split; [done|]. exists name, v. split; [by right|done].
Qed.

(** The loop succeeds on entries that are well-formed records with at most
    one pending flag. *)
Lemma readEntries_complete (l : list string) (cp : string) :
  NoDup l →
  ∀ (m0 : gmap string Z) (cp0 : string),
  (∀ name u, name ∈ l → unitOfEntry name = Some u →
     ∃ v b, record_at fs dpath name v b ∧ (b = true → cp = u ∧ cp0 = "")) →
  (cp = cp0
   ∨ (cp0 = "" ∧ ∃ name v, name ∈ l ∧ unitOfEntry name = Some cp
                            ∧ record_at fs dpath name v true)) →
  ∃ m, readEntries fs dpath l m0 cp0 = Ok (m, cp).
Proof.
  induction 1 as [|name0 rest Hnotin Hnodup IH]; intros m0 cp0 Hrecs Hcp.
  { exists m0. simpl. destruct Hcp as [->|(_ & name & _ & Hin & _)]; [done|].
    by apply elem_of_nil in Hin. }
  cbn [readEntries].
  destruct (unitOfEntry name0) as [u0|] eqn:Hu0.
  2: { apply IH.
       - intros name u Hin. apply Hrecs. by right.
       - destruct Hcp as [->|(-> & name & v & [->|Hin]%elem_of_cons & Hu & Hrec)];
           [by left|congruence|].
         right. split; [done|]. by exists name, v. }
  destruct (Hrecs name0 u0) as (v0 & b0 & Hrec0 & Hb0); [by left|done|].
  unfold record_at in Hrec0. rewrite Hrec0. cbn [di_ChangeVersion di_ChangedPending].
  destruct b0.
  - destruct (Hb0 eq_refl) as [-> ->]. simpl. apply IH; [|by left].
    intros name u Hin Hu.
    destruct (Hrecs name u) as (v & b & Hrec & Hb); [by right|done|].
    exists v, b. split; [done|]. intros ->. destruct (Hb eq_refl) as [-> _].
    exfalso. apply Hnotin. by rewrite (unitOfEntry_inj _ _ _ Hu0 Hu).
  - apply IH.
    + intros name u Hin. apply Hrecs. by right.
    + destruct Hcp as [->|(-> & name & v & [->|Hin]%elem_of_cons & Hu & Hrec)];
        [by left| |].
      * unfold record_at in Hrec. rewrite Hrec0 in Hrec. done.
      * right. split; [done|]. by exists name, v.
Qed.

(** The loop of [ReadStateDir] computes what the entries say, in whatever
    order it meets them. *)
Lemma readEntries_Loaded (names : list string) (m : gmap string Z) (cp : string) :
  NoDup names →
  readEntries fs dpath names ∅ "" = Ok (m, cp) ↔ Loaded fs dpath names m cp.
Proof.
  intros Hnodup. split.
  - intros Hread.
    destruct (readEntries_sound names Hnodup _ _ _ _ Hread) as (I1 & I2 & I3).
    split; [|split].
    + intros name u Hin Hu. destruct (I1 name u Hin Hu) as (v & b & ? & ? & Hb).
      exists v, b. split; [done|]. split; [done|]. intros Hbt. by destruct (Hb Hbt).
    + intros u Hsome.
      destruct (decide (Exists (λ name, unitOfEntry name = Some u) names)) as [Hex|Hno].
      * apply Exists_exists in Hex as (name & Hin & Hu). by exists name.
      * rewrite I2 in Hsome; [by destruct Hsome|].
        intros name Hin Hu. apply Hno. apply Exists_exists. by exists name.
    + intros Hne. destruct I3 as [|[_ ?]]; done.
  - intros (L1 & L2 & L3).
    destruct (readEntries_complete names cp Hnodup ∅ "") as [m' Hread].
    { intros name u Hin Hu. destruct (L1 name u Hin Hu) as (v & b & ? & _ & Hb).
      exists v, b. split; [done|]. intros Hbt. split; [by apply Hb|done]. }
    { destruct (decide (cp = "")) as [->|Hne]; [by left|]. right. split; [done|].
      by apply L3. }
    rewrite Hread. f_equal. f_equal.
    destruct (readEntries_sound names Hnodup _ _ _ _ Hread) as (I1 & I2 & _).
    apply map_eq. intros u.
    destruct (decide (Exists (λ name, unitOfEntry name = Some u) names)) as [Hex|Hno].
    + apply Exists_exists in Hex as (name & Hin & Hu).
      destruct (I1 name u Hin Hu) as (v & b & Hrec & -> & _).
      destruct (L1 name u Hin Hu) as (v' & b' & Hrec' & -> & _).
      by destruct (record_at_functional _ _ _ _ _ Hrec Hrec') as [-> _].
    + rewrite I2.
      * rewrite lookup_empty. symmetry. apply eq_None_not_Some. intros Hsome.
        destruct (L2 u Hsome) as (name & Hin & Hu).
        apply Hno. apply Exists_exists. by exists name.
      * intros name Hin Hu. apply Hno. apply Exists_exists. by exists name.
Qed.

End read_entries.

(** ** Loading a directory *)

Lemma resolve_app (fs : node) (p q : path) :
  resolve fs (p ++ q)%list =
  match resolve fs p with
  | SysOk n => resolve n q
  | SysErr e => SysErr e
  end.
Proof.
  revert fs. induction p as [|c p IH]; intros fs; simpl; [done|].
  destruct fs as [?|ents]; [done|]. destruct (ents !! c); [apply IH|done].
Qed.

Lemma resolve_entry (fs : node) (p : path) (ents : gmap string node) (name : string) :
  resolve fs p = SysOk (Dir ents) →
  resolve fs (p ++ [name])%list =
  match ents !! name with
  | Some n => SysOk n
  | None => SysErr ENOENT
  end.
Proof. intros H. rewrite resolve_app, H. simpl. by destruct (ents !! name). Qed.

(** What [ioutil.ReadDir] lists: the names in the directory, once each. *)
Lemma ReadDir_names (fs : node) (p : path) (fis : list string) :
  ReadDir fs p = SysOk fis →
  ∃ ents, resolve fs p = SysOk (Dir ents)
          ∧ NoDup fis
          ∧ ∀ name, name ∈ fis ↔ is_Some (ents !! name).
Proof.
  unfold ReadDir. destruct (resolve fs p) as [[?|ents]|e]; try done.
  intros [= <-]. exists ents. split; [done|].
  pose proof (merge_sort_Permutation name_le (map_to_list ents).*1) as Hperm.
  split.
  - rewrite Hperm. apply NoDup_fst_map_to_list.
  - intros name. rewrite Hperm. rewrite list_elem_of_fmap. split.
    + intros ([k n] & -> & Hin). apply elem_of_map_to_list in Hin. by exists n.
    + intros [n Hn]. exists (name, n). split; [done|]. by apply elem_of_map_to_list.
Qed.

Lemma ReadDir_dir (fs : node) (p : path) (ents : gmap string node) :
  resolve fs p = SysOk (Dir ents) →
  ∃ fis, ReadDir fs p = SysOk fis.
Proof. intros H. unfold ReadDir. rewrite H. eauto. Qed.

(** The decoded content of a directory entry. *)
Lemma ReadYaml_entry (fs : node) (p : path) (ents : gmap string node) (name : string) :
  resolve fs p = SysOk (Dir ents) →
  contains slash name = false →
  is_Some (unitOfEntry name) →
  ReadYaml fs (Join p name) =
  match ents !! name with
  | Some (File (Yaml di)) => Ok di
  | Some (File NotYaml) => Err InvalidYaml
  | Some (Dir _) => Err (PathError EISDIR)
  | None => Err (PathError ENOENT)
  end.
Proof.
  intros Hdir Hslash [u Hu].
  destruct (unitOfEntry_name _ _ Hu) as (H1 & H2 & H3).
  unfold ReadYaml. rewrite Join_file by done.
  rewrite (resolve_entry _ _ _ _ Hdir).
  by destruct (ents !! name) as [[[?|]|?]|].
Qed.

(** [ReadStateDir] on a directory that exists. *)
Lemma ReadStateDir_dir (fs : node) (dirPath : path) (id : Z) (ents : gmap string node) :
  resolve fs (Join dirPath (Itoa id)) = SysOk (Dir ents) →
  ∃ fis, ReadDir fs (Join dirPath (Itoa id)) = SysOk fis
    ∧ ReadStateDir fs dirPath id =
      ErrorContextf_result (CannotLoadRelationState (Join dirPath (Itoa id)))
        match readEntries fs (Join dirPath (Itoa id)) fis ∅ "" with
        | Err e => Err e
        | Ok (members, pending) =>
            Ok {| path_ := Join dirPath (Itoa id);
                  state := {| RelationId := id;
                              Members := Some members;
                              ChangedPending := pending |} |}
        end.
Proof.
  intros Hdir. destruct (ReadDir_dir _ _ _ Hdir) as [fis Hfis].
  exists fis. split; [done|].
  unfold ReadStateDir, fresh, Stat. cbn [path_]. by rewrite Hdir, Hfis.
Qed.

(** C8: a corrupt directory is a load error. When the directory of the
    relation exists and holds, among its files, a unit record without the
    change version, or two unit records that both carry the changed-pending
    flag, [ReadStateDir] returns an error, and so no state directory. *)
Theorem corrupt_directory_is_an_error (fs : node) (dirPath : path) (id : Z)
    (ents : gmap string node) :
  resolve fs (Join dirPath (Itoa id)) = SysOk (Dir ents) →
  file_names ents →
  lacks_version ents ∨ two_pending ents →
  ∃ e, ReadStateDir fs dirPath id = Err e.
Proof.
  intros Hdir Hnames Hbad.
  destruct (ReadStateDir_dir _ _ _ _ Hdir) as (fis & Hfis & ->).
  destruct (ReadDir_names _ _ _ Hfis) as (ents' & Hdir' & Hnodup & Hin).
  rewrite Hdir in Hdir'. injection Hdir' as <-.
  destruct (readEntries _ _ fis _ _) as [[m cp]|e] eqn:Hread; [|simpl; eauto].
  exfalso.
  destruct (readEntries_sound _ _ fis Hnodup _ _ _ _ Hread) as (I1 & _ & _).
  destruct Hbad as [(name & b & [u Hu] & Hent)|(n1 & n2 & v1 & v2 & Hne & [u1 Hu1] & [u2 Hu2] & He1 & He2)].
  - destruct (I1 name u) as (v & b' & Hrec & _); [apply Hin; by rewrite Hent|done|].
    unfold record_at in Hrec.
    rewrite (ReadYaml_entry _ _ _ _ Hdir) in Hrec; [|apply Hnames; by rewrite Hent|by exists u].
    rewrite Hent in Hrec. done.
  - destruct (I1 n1 u1) as (w1 & b1 & Hrec1 & _ & Hb1); [apply Hin; by rewrite He1|done|].
    destruct (I1 n2 u2) as (w2 & b2 & Hrec2 & _ & Hb2); [apply Hin; by rewrite He2|done|].
    unfold record_at in Hrec1, Hrec2.
    rewrite (ReadYaml_entry _ _ _ _ Hdir) in Hrec1; [|apply Hnames; by rewrite He1|by exists u1].
    rewrite (ReadYaml_entry _ _ _ _ Hdir) in Hrec2; [|apply Hnames; by rewrite He2|by exists u2].
    rewrite He1 in Hrec1. rewrite He2 in Hrec2.
    injection Hrec1 as _ <-. injection Hrec2 as _ <-.
    destruct (Hb1 eq_refl) as [-> _]. destruct (Hb2 eq_refl) as [Heq _].
    apply Hne. apply (unitOfEntry_inj _ _ u2); [|done]. by rewrite <- Heq.
Qed.

Lemma corrupt_directory_witness :
  (∃ e, ReadStateDir (ex_fs_with {["wordpress-0" := ex_record None false]}) ex_root 7
        = Err e)
  ∧ (∃ e, ReadStateDir
            (ex_fs_with {["wordpress-0" := ex_record (Some 1) true;
                          "mysql-3" := ex_record (Some 2) true]}) ex_root 7
          = Err e).
Proof.
  split.
  - apply (corrupt_directory_is_an_error _ ex_root 7
             {["wordpress-0" := ex_record None false]}).
    + reflexivity.
    + intros name [n Hn]. apply lookup_singleton_Some in Hn as [<- _]. reflexivity.
    + left. exists "wordpress-0", false. split; [by exists "wordpress/0"|].
      apply lookup_singleton_eq.
  - apply (corrupt_directory_is_an_error _ ex_root 7
             {["wordpress-0" := ex_record (Some 1) true;
               "mysql-3" := ex_record (Some 2) true]}).
    + reflexivity.
    + intros name [n Hn].
      apply lookup_insert_Some in Hn as [[<- _]|[_ Hn]]; [reflexivity|].
      apply lookup_singleton_Some in Hn as [<- _]. reflexivity.
    + right. exists "wordpress-0", "mysql-3", (Some 1), (Some 2).
      split; [discriminate|]. 
      split; [by exists "wordpress/0"|]. split; [by exists "mysql/3"|].
      split; reflexivity.
Defined.

(** ** The loop of [ReadAllStateDirs] *)

Lemma readAllEntries_skips (fs : node) (dirPath : path) (fis : list string)
    (dirs0 : gmap Z StateDir) :
  readAllEntries fs dirPath fis dirs0
  = readAllEntries fs dirPath (filter (λ name, is_Some (Atoi name)) fis) dirs0.
Proof.
  revert dirs0. induction fis as [|name rest IH]; intros dirs0; [done|].
  cbn [readAllEntries]. destruct (Atoi name) as [id|] eqn:Hid.
  - rewrite filter_cons_True by (by rewrite Hid). cbn [readAllEntries]. rewrite Hid.
    destruct (ReadStateDir fs dirPath id); [apply IH|done].
  - rewrite filter_cons_False; [apply IH|]. rewrite Hid. by intros [? ?].
Qed.

Lemma readAllEntries_dom (fs : node) (dirPath : path) (fis : list string) :
  ∀ (dirs0 dirs : gmap Z StateDir),
  readAllEntries fs dirPath fis dirs0 = Ok dirs →
  ∀ id, is_Some (dirs !! id)
        ↔ is_Some (dirs0 !! id) ∨ ∃ name, name ∈ fis ∧ Atoi name = Some id.
Proof.
  induction fis as [|name rest IH]; intros dirs0 dirs Hread id.
  { injection Hread as <-. split; [by left|]. intros [|(name & Hin & _)]; [done|].
    by apply elem_of_nil in Hin. }
  cbn [readAllEntries] in Hread. destruct (Atoi name) as [id0|] eqn:Hid0.
  - destruct (ReadStateDir fs dirPath id0) as [dir|]; [|done].
    rewrite (IH _ _ Hread id). rewrite lookup_insert_is_Some. split.
    + intros [[->|[_ ?]]|(n & Hin & Hn)]; [right|by left|right].
      * exists name. split; [by left|done].
      * exists n. split; [by right|done].
    + intros [?|(n & [->|Hin]%elem_of_cons & Hn)].
      * destruct (decide (id0 = id)); [by left; left|by left; right].
      * left. left. congruence.
      * right. by exists n.
  - rewrite (IH _ _ Hread id). split.
    + intros [?|(n & Hin & Hn)]; [by left|]. right. exists n. split; [by right|done].
    + intros [?|(n & [->|Hin]%elem_of_cons & Hn)]; [by left|congruence|].
      right. by exists n.
Qed.

(** C6, amended: [ReadAllStateDirs] takes the entries of the root path whose
    names [strconv.Atoi] parses as an integer, of either sign, and ignores
    the others. The loop does on a listing what it does on the listing
    without the names that do not parse; and the relation ids of a result
    are exactly the integers that the names of the entries parse to. *)
Theorem ReadAllStateDirs_integer_names (fs : node) (dirPath : path) :
  (∀ fis dirs0,
     readAllEntries fs dirPath fis dirs0
     = readAllEntries fs dirPath (filter (λ name, is_Some (Atoi name)) fis) dirs0)
  ∧ (∀ dirs,
       ReadAllStateDirs fs dirPath = Ok (Some dirs) →
       ∃ ents, resolve fs dirPath = SysOk (Dir ents)
         ∧ ∀ id, is_Some (dirs !! id)
                 ↔ ∃ name, is_Some (ents !! name) ∧ Atoi name = Some id).
Proof.
  split; [apply readAllEntries_skips|].
  intros dirs. unfold ReadAllStateDirs, Stat.
  destruct (resolve fs dirPath) as [n|e] eqn:Hres.
  2: { by destruct (IsNotExist e). }
  destruct (ReadDir fs dirPath) as [fis|e] eqn:Hfis; [|done].
  destruct (readAllEntries fs dirPath fis ∅) as [dirs'|e] eqn:Hread; [|done].
  intros [= <-].
  destruct (ReadDir_names _ _ _ Hfis) as (ents & Hdir & _ & Hin).
  exists ents. split; [congruence|]. intros id.
  rewrite (readAllEntries_dom _ _ _ _ _ Hread id). rewrite lookup_empty. split.
  - intros [[? ?]|(name & Hn & Hid)]; [done|]. exists name. by rewrite <- Hin.
  - intros (name & Hn & Hid). right. exists name. by rewrite Hin.
Qed.

Lemma integer_names_witness :
  ∃ ents, resolve ex_fs_negative ex_root = SysOk (Dir ents)
    ∧ ∀ id, is_Some (({[-3 := fresh ex_root (-3); 7 := fresh ex_root 7]}
                       : gmap Z StateDir) !! id)
            ↔ ∃ name, is_Some (ents !! name) ∧ Atoi name = Some id.
Proof.
  apply (proj2 (ReadAllStateDirs_integer_names ex_fs_negative ex_root)).
  vm_compute. reflexivity.
Defined.

(** C6, as stated, fails on a directory named [-3]: its name does not parse
    as a non-negative integer, and the result has relation [-3], loaded from
    that directory. *)
Lemma negative_name_counterexample :
  ReadAllStateDirs ex_fs_negative ex_root
  = Ok (Some {[-3 := fresh ex_root (-3); 7 := fresh ex_root 7]})
  ∧ path_ (fresh ex_root (-3)) = ["state"; "relations"; "-3"]
  ∧ ¬ (∃ n, Atoi "-3" = Some n ∧ 0 ≤ n).
Proof.
  split; [vm_compute; reflexivity|]. split; [reflexivity|].
  intros (n & Hn & Hpos). vm_compute in Hn. injection Hn as <-. lia.
Qed.

(** ** Reloading what has been written *)

Lemma WriteYaml_below (ents : gmap string node) (c : string) (q : path) (di : diskInfo) :
  q ≠ [] →
  WriteYaml (Dir ents) (c :: q) di =
  match ents !! c with
  | None => SysErr ENOENT
  | Some n =>
      match WriteYaml n q di with
      | SysErr e => SysErr e
      | SysOk n' => SysOk (Dir (<[c:=n']> ents))
      end
  end.
Proof. by destruct q. Qed.

Lemma Remove_below (ents : gmap string node) (c : string) (q : path) :
  q ≠ [] →
  Remove (Dir ents) (c :: q) =
  match ents !! c with
  | None => SysErr ENOENT
  | Some n =>
      match Remove n q with
      | SysErr e => SysErr e
      | SysOk n' => SysOk (Dir (<[c:=n']> ents))
      end
  end.
Proof. destruct q; [done|]. intros _. reflexivity. Qed.

(** A successful write puts the record into the directory of the file. *)
Lemma WriteYaml_entry (fs : node) (p : path) (c : string) (di : diskInfo) (fs' : node) :
  WriteYaml fs (p ++ [c])%list di = SysOk fs' →
  ∃ ents, resolve fs p = SysOk (Dir ents)
          ∧ resolve fs' p = SysOk (Dir (<[c:=File (Yaml di)]> ents)).
Proof.
  revert fs fs'. induction p as [|c0 p IH]; intros fs fs'.
  - simpl. destruct fs as [?|ents]; [done|]. intros H. exists ents. split; [done|].
    destruct (ents !! c) as [[?|?]|]; congruence.
  - destruct fs as [?|ents]; [done|].
    change ((c0 :: p) ++ [c])%list with (c0 :: (p ++ [c]))%list.
    rewrite WriteYaml_below by (by destruct p). simpl.
    destruct (ents !! c0) as [n|]; [|done].
    destruct (WriteYaml n (p ++ [c])%list di) as [n'|e] eqn:Hw; [|done].
    intros [= <-]. destruct (IH _ _ Hw) as (sub & Hsub & Hsub').
    exists sub. split; [done|]. simpl. by rewrite lookup_insert_eq.
Qed.

(** A successful removal takes the entry out of its directory. *)
Lemma Remove_entry (fs : node) (p : path) (c : string) (fs' : node) :
  Remove fs (p ++ [c])%list = SysOk fs' →
  ∃ ents, resolve fs p = SysOk (Dir ents)
          ∧ is_Some (ents !! c)
          ∧ resolve fs' p = SysOk (Dir (delete c ents)).
Proof.
  revert fs fs'. induction p as [|c0 p IH]; intros fs fs'.
  - simpl. destruct fs as [?|ents]; [done|].
    destruct (ents !! c) as [n|] eqn:Hc; [|done]. intros H.
    exists ents. split; [done|]. split; [by rewrite Hc|].
    destruct n as [?|sub]; [congruence|]. destruct (Nat.eqb (size sub) 0); congruence.
  - destruct fs as [?|ents]; [done|].
    change ((c0 :: p) ++ [c])%list with (c0 :: (p ++ [c]))%list.
    rewrite Remove_below by (by destruct p). simpl.
    destruct (ents !! c0) as [n|]; [|done].
    destruct (Remove n (p ++ [c])%list) as [n'|e] eqn:Hw; [|done].
    intros [= <-]. destruct (IH _ _ Hw) as (sub & Hsub & Hc & Hsub').
    exists sub. split; [done|]. split; [done|]. simpl. by rewrite lookup_insert_eq.
Qed.

Lemma Remove_entry_absent (fs : node) (p : path) (c : string) (ents : gmap string node) :
  resolve fs p = SysOk (Dir ents) →
  Remove fs (p ++ [c])%list = SysErr ENOENT →
  ents !! c = None.
Proof.
  intros Hdir Hr. apply Remove_ENOENT in Hr; [|by destruct p].
  rewrite (resolve_entry _ _ _ _ Hdir) in Hr. by destruct (ents !! c).
Qed.

(** What the validation has checked of an event that is not the teardown
    and that it lets pass. *)
Lemma Validate_unit_event (s : State) (e : hook.Info) (m : gmap string Z) :
  Validate s e = None →
  Members s = Some m →
  hook.Kind_ e ≠ hook.RelationBroken →
  (ChangedPending s ≠ ""
   ∧ hook.RemoteUnit e = ChangedPending s ∧ hook.Kind_ e = hook.RelationChanged)
  ∨ (ChangedPending s = ""
     ∧ ((is_Some (m !! hook.RemoteUnit e) ∧ hook.Kind_ e ≠ hook.RelationJoined)
        ∨ (m !! hook.RemoteUnit e = None ∧ hook.Kind_ e = hook.RelationJoined))).
Proof.
  intros Hv Hm Hk. pose proof (Validate_body_spec s e) as Hspec.
  unfold Validate in Hv. destruct (Validate_body s e); [done|].
  inversion Hspec; try congruence.
  - left. done.
  - right. split; [done|]. congruence.
Qed.

(** [ReadStateDir] on a directory of files: it succeeds exactly with the
    state that the entries of the directory say. *)
Lemma ReadStateDir_LoadedDir (fs : node) (dirPath : path) (id : Z)
    (ents : gmap string node) (d : StateDir) :
  resolve fs (Join dirPath (Itoa id)) = SysOk (Dir ents) →
  file_names ents →
  ReadStateDir fs dirPath id = Ok d
  ↔ ∃ m cp, d = {| path_ := Join dirPath (Itoa id);
                   state := {| RelationId := id; Members := Some m;
                               ChangedPending := cp |} |}
            ∧ LoadedDir ents m cp.
Proof.
  intros Hdir Hnames.
  destruct (ReadStateDir_dir _ _ _ _ Hdir) as (fis & Hfis & ->).
  destruct (ReadDir_names _ _ _ Hfis) as (ents' & Hdir' & Hnodup & Hin).
  rewrite Hdir in Hdir'. injection Hdir' as <-.
  assert (Hrec : ∀ name u v b, is_Some (ents !! name) → unitOfEntry name = Some u →
            record_at fs (Join dirPath (Itoa id)) name v b
            ↔ ents !! name = Some (File (Yaml {| di_ChangeVersion := Some v;
                                                 di_ChangedPending := b |}))).
  { intros name u v b Hsome Hu. unfold record_at.
    rewrite (ReadYaml_entry _ _ _ _ Hdir); [|by apply Hnames|by exists u].
    destruct (ents !! name) as [[[di|]|?]|]; split; try done; congruence. }
  assert (Hiff : ∀ m cp, Loaded fs (Join dirPath (Itoa id)) fis m cp ↔ LoadedDir ents m cp).
  { intros m cp. split; intros (L1 & L2 & L3); (split; [|split]).
    - intros name u Hsome Hu. destruct (L1 name u) as (v & b & Hr & ? & ?); [by apply Hin|done|].
      exists v, b. split; [|done]. by apply (Hrec name u).
    - intros u Hu. destruct (L2 u Hu) as (name & Hn & ?). exists name. by rewrite <- Hin.
    - intros Hne. destruct (L3 Hne) as (name & v & Hn & Hu & Hr). exists name, v.
      split; [done|]. apply (Hrec name cp); [by apply Hin|done|done].
    - intros name u Hn Hu. apply Hin in Hn.
      destruct (L1 name u Hn Hu) as (v & b & Hr & ? & ?).
      exists v, b. split; [|done]. by apply (Hrec name u).
    - intros u Hu. destruct (L2 u Hu) as (name & Hn & ?). exists name. by rewrite Hin.
    - intros Hne. destruct (L3 Hne) as (name & v & Hu & Hr). exists name, v.
      assert (is_Some (ents !! name)) as Hsome by (by rewrite Hr).
      split; [by apply Hin|]. split; [done|]. by apply (Hrec name cp). }
  split.
  - destruct (readEntries _ _ fis _ _) as [[m cp]|e] eqn:Hread; [|done].
    simpl. intros [= <-]. exists m, cp. split; [done|].
    apply Hiff. by apply readEntries_Loaded.
  - intros (m & cp & -> & Hl). apply Hiff in Hl.
    apply (readEntries_Loaded _ _ _ _ _ Hnodup) in Hl. by rewrite Hl.
Qed.

Lemma LoadedDir_joined (ents : gmap string node) (m : gmap string Z)
    (name u : string) (v : Z) :
  unitOfEntry name = Some u →
  LoadedDir ents m "" →
  LoadedDir (<[name:=ex_record (Some v) true]> ents) (<[u:=v]> m) u.
Proof.
  intros Hu (L1 & L2 & _). split; [|split].
  - intros name' u' Hsome Hu'. destruct (decide (name = name')) as [<-|Hne].
    + assert (u' = u) as -> by congruence. exists v, true.
      by rewrite !lookup_insert_eq.
    + rewrite lookup_insert_ne in Hsome by done.
      destruct (L1 name' u' Hsome Hu') as (v' & b & He & Hm & Hb).
      exists v', b. rewrite lookup_insert_ne by done. split; [done|]. split.
      * rewrite lookup_insert_ne; [done|]. intros <-. apply Hne.
        by apply (unitOfEntry_inj _ _ u).
      * intros Hbt. specialize (Hb Hbt). symmetry in Hb.
        by apply unitOfEntry_nonempty in Hu'.
  - intros u' Hsome. apply lookup_insert_is_Some in Hsome as [<-|[Hne Hsome]].
    + exists name. by rewrite lookup_insert_eq.
    + destruct (L2 u' Hsome) as (name' & Hn & Hu'). exists name'. split; [|done].
      apply lookup_insert_is_Some. destruct (decide (name = name')); auto.
  - intros _. exists name, v. by rewrite lookup_insert_eq.
Qed.

Lemma LoadedDir_changed (ents : gmap string node) (m : gmap string Z)
    (cp name u : string) (v : Z) :
  unitOfEntry name = Some u →
  LoadedDir ents m cp →
  cp = u ∨ cp = "" →
  LoadedDir (<[name:=ex_record (Some v) false]> ents) (<[u:=v]> m) "".
Proof.
  intros Hu (L1 & L2 & _) Hcp. split; [|split]; [| |done].
  - intros name' u' Hsome Hu'. destruct (decide (name = name')) as [<-|Hne].
    + assert (u' = u) as -> by congruence. exists v, false.
      by rewrite !lookup_insert_eq.
    + rewrite lookup_insert_ne in Hsome by done.
      destruct (L1 name' u' Hsome Hu') as (v' & b & He & Hm & Hb).
      assert (u ≠ u') as Hune.
      { intros <-. apply Hne. by apply (unitOfEntry_inj _ _ u). }
      exists v', b. rewrite !lookup_insert_ne by done. split; [done|]. split; [done|].
      intros Hbt. specialize (Hb Hbt). destruct Hcp as [->| ->]; [done|].
      symmetry in Hb. by apply unitOfEntry_nonempty in Hu'.
  - intros u' Hsome. apply lookup_insert_is_Some in Hsome as [<-|[Hne Hsome]].
    + exists name. by rewrite lookup_insert_eq.
    + destruct (L2 u' Hsome) as (name' & Hn & Hu'). exists name'. split; [|done].
      apply lookup_insert_is_Some. destruct (decide (name = name')); auto.
Qed.

Lemma LoadedDir_departed (ents : gmap string node) (m : gmap string Z) (name u : string) :
  unitOfEntry name = Some u →
  LoadedDir ents m "" →
  LoadedDir (delete name ents) (delete u m) "".
Proof.
  intros Hu (L1 & L2 & _). split; [|split]; [| |done].
  - intros name' u' Hsome Hu'.
    apply lookup_delete_is_Some in Hsome as [Hne Hsome].
    destruct (L1 name' u' Hsome Hu') as (v' & b & He & Hm & Hb).
    exists v', b. rewrite lookup_delete_ne by done. split; [done|]. split; [|done].
    rewrite lookup_delete_ne; [done|]. intros <-. apply Hne.
    by apply (unitOfEntry_inj _ _ u).
  - intros u' Hsome. apply lookup_delete_is_Some in Hsome as [Hne Hsome].
    destruct (L2 u' Hsome) as (name' & Hn & Hu'). exists name'. split; [|done].
    apply lookup_delete_is_Some. split; [|done]. intros <-. congruence.
Qed.

Lemma file_names_insert (ents : gmap string node) (name : string) (n : node) :
  contains slash name = false → file_names ents → file_names (<[name:=n]> ents).
Proof.
  intros Hs Hf name' Hsome. apply lookup_insert_is_Some in Hsome as [<-|[_ ?]]; auto.
Qed.

Lemma file_names_delete (ents : gmap string node) (name : string) :
  file_names ents → file_names (delete name ents).
Proof.
  intros Hf name' Hsome. apply lookup_delete_is_Some in Hsome as [_ ?]. auto.
Qed.

Lemma file_names_at_dir (fs : node) (p : path) (ents : gmap string node) :
  resolve fs p = SysOk (Dir ents) → file_names ents → file_names_at fs p.
Proof. intros Hdir Hf ents' Hdir'. rewrite Hdir in Hdir'. by injection Hdir' as <-. Qed.

(** A state directory has been loaded from a directory, or it is fresh. *)
Lemma ReadStateDir_cases (fs : node) (dirPath : path) (id : Z) (d : StateDir) :
  ReadStateDir fs dirPath id = Ok d →
  (∃ ents, resolve fs (Join dirPath (Itoa id)) = SysOk (Dir ents))
  ∨ ((∀ ents, resolve fs (Join dirPath (Itoa id)) ≠ SysOk (Dir ents))
     ∧ d = fresh dirPath id).
Proof.
  unfold ReadStateDir, Stat, ReadDir, fresh. cbn [path_].
  destruct (resolve fs _) as [[?|ents]|e]; [done|by eauto|].
  destruct (IsNotExist e); [|done]. intros [= <-]. by right.
Qed.

Lemma Write_departed_fs (d : StateDir) (fs : node) (e : hook.Info)
    (d' : StateDir) (fs' : node) :
  hook.Kind_ e = hook.RelationDeparted →
  Write d fs e = (Return None, d', fs') →
  let p := Join (path_ d) (Replace1 (hook.RemoteUnit e) slash hyphen) in
  Remove fs p = SysOk fs' ∨ (Remove fs p = SysErr ENOENT ∧ fs' = fs).
Proof.
  intros Hk. unfold Write. rewrite Hk.
  kind_tests. cbv iota.
  destruct (Remove fs _) as [fs2|err]; [intros [= _ <-]; by left|].
  destruct err; simpl; try done. intros [= _ <-]. by right.
Qed.

Lemma Write_keeps_loaded (fs : node) (dirPath : path) (id : Z) (d : StateDir)
    (e : hook.Info) (d' : StateDir) (fs' : node) :
  ReadStateDir fs dirPath id = Ok d →
  file_names_at fs (Join dirPath (Itoa id)) →
  unit_event e →
  Validate (State_ d) e = None →
  Write d fs e = (Return None, d', fs') →
  ReadStateDir fs' dirPath id = Ok d' ∧ file_names_at fs' (Join dirPath (Itoa id)).
Proof.
  intros Hread Hfiles [Hkind Hunit] Hvalid Hwrite.
  set (dp := Join dirPath (Itoa id)) in *.
  set (u := hook.RemoteUnit e) in *.
  destruct (UnitName_file u Hunit) as [Hu Hslash].
  set (name := Replace1 u slash hyphen) in *.
  destruct (unitOfEntry_name _ _ Hu) as (Hn1 & Hn2 & Hn3).
  destruct (ReadStateDir_loaded _ _ _ _ Hread) as (Hpath & Hid & m & Hm).
  assert (Hjoin : Join (path_ d) name = (dp ++ [name])%list).
  { rewrite Hpath. by apply Join_file. }
  assert (Hnb : hook.Kind_ e ≠ hook.RelationBroken).
  { destruct Hkind as [->|[->| ->]]; done. }
  rewrite State_id in Hvalid.
  pose proof (Validate_unit_event _ _ _ Hvalid Hm Hnb) as Hchecked. fold u in Hchecked.
  destruct (decide (hook.Kind_ e = hook.RelationDeparted)) as [Hdep|Hndep].
  - (* a unit departs *)
    rewrite (Write_departed_ok _ _ _ _ _ Hdep Hwrite). fold u. rewrite Hm. simpl.
    destruct Hchecked as [(_ & _ & Hc)|(Hcp & [[Hmem _]|[_ Hj]])];
      [rewrite Hdep in Hc; done| |rewrite Hdep in Hj; done].
    destruct (ReadStateDir_cases _ _ _ _ Hread) as [[ents Hdir]|[_ ->]].
    2: { simpl in Hm. injection Hm as <-. rewrite lookup_empty in Hmem. by destruct Hmem. }
    fold dp in Hdir.
    pose proof (Hfiles ents Hdir) as Hnames.
    apply (ReadStateDir_LoadedDir _ _ _ _ _ Hdir Hnames) in Hread
      as (m0 & cp & -> & Hloaded).
    simpl in Hm, Hcp. injection Hm as ->. subst cp.
    destruct (Write_departed_fs _ _ _ _ _ Hdep Hwrite) as [Hrm|[Hrm ->]];
      fold u in Hrm; fold name in Hrm; rewrite Hjoin in Hrm.
    + destruct (Remove_entry _ _ _ _ Hrm) as (ents' & Hdir' & _ & Hafter).
      rewrite Hdir in Hdir'. injection Hdir' as <-.
      split.
      * apply (ReadStateDir_LoadedDir _ _ _ _ _ Hafter); [by apply file_names_delete|].
        exists (delete u m), "". split; [done|]. by apply LoadedDir_departed.
      * eapply file_names_at_dir; [done|]. by apply file_names_delete.
    + exfalso. pose proof (Remove_entry_absent _ _ _ _ Hdir Hrm) as Habsent.
      destruct Hloaded as (_ & L2 & _). destruct (L2 u Hmem) as (name' & Hsome & Hu').
      rewrite (unitOfEntry_inj _ _ _ Hu' Hu) in Hsome. rewrite Habsent in Hsome.
      by destruct Hsome.
  - (* a unit joins or changes *)
    destruct (Write_put_ok _ _ _ _ _ Hnb Hndep Hwrite) as (m' & Hm' & -> & Hw).
    rewrite Hm in Hm'. injection Hm' as <-. fold u in Hw |- *. fold name in Hw.
    rewrite Hjoin in Hw.
    destruct (WriteYaml_entry _ _ _ _ _ Hw) as (ents & Hdir & Hafter).
    pose proof (Hfiles ents Hdir) as Hnames.
    apply (ReadStateDir_LoadedDir _ _ _ _ _ Hdir Hnames) in Hread
      as (m0 & cp & -> & Hloaded).
    simpl in Hm, Hchecked |- *. injection Hm as ->.
    assert (Hnames' : file_names (<[name:=File (Yaml
               {| di_ChangeVersion := Some (hook.ChangeVersion e);
                  di_ChangedPending := String.eqb (hook.Kind_ e) hook.RelationJoined |})]> ents)).
    { by apply file_names_insert. }
    split; [|by eapply file_names_at_dir].
    apply (ReadStateDir_LoadedDir _ _ _ _ _ Hafter Hnames').
    eexists _, _. split; [reflexivity|].
    destruct (String.eqb_spec (hook.Kind_ e) hook.RelationJoined) as [Hj|Hnj].
    + destruct Hchecked as [(_ & _ & Hc)|(Hcp & _)]; [rewrite Hj in Hc; done|].
      subst cp. by apply LoadedDir_joined.
    + destruct Hchecked as [(_ & Hc & _)|(Hcp & _)].
      * apply (LoadedDir_changed ents m cp); auto.
      * apply (LoadedDir_changed ents m cp); auto.
Qed.

(** C3, amended: for every sequence of joined, changed and departed events
    for units with unit names, each validated against the current state and
    then written with success through a state directory that [ReadStateDir]
    has loaded from a directory of files, reloading with [ReadStateDir] from
    the same root path and relation id returns the state directory as the
    last write left it: the same members and the same pending unit. *)
Theorem reload_after_validated_writes (fs : node) (dirPath : path) (id : Z)
    (d : StateDir) (es : list hook.Info) (d' : StateDir) (fs' : node) :
  ReadStateDir fs dirPath id = Ok d →
  file_names_at fs (Join dirPath (Itoa id)) →
  Forall unit_event es →
  run d fs es = Completed d' fs' →
  ReadStateDir fs' dirPath id = Ok d'.
Proof.
  intros Hread Hfiles Hes. unfold run. generalize 0%nat.
  revert d fs Hread Hfiles.
  induction Hes as [|e es He Hes IH]; intros d fs Hread Hfiles n Hrun.
  { simpl in Hrun. by injection Hrun as <- <-. }
  simpl in Hrun.
  destruct (Validate (State_ d) e) eqn:Hvalid; [done|].
  destruct (Write d fs e) as [[[[err|]|] d1] fs1] eqn:Hwrite; try done.
  destruct (Write_keeps_loaded _ _ _ _ _ _ _ Hread Hfiles He Hvalid Hwrite)
    as [Hread1 Hfiles1].
  by apply (IH d1 fs1 Hread1 Hfiles1 (S n)).
Qed.

Lemma ex_unit_names : UnitName "wordpress/0" ∧ UnitName "mysql/3".
Proof.
  split.
  - exists "wordpress", "0". repeat split. by exists 0.
  - exists "mysql", "3". repeat split. by exists 3.
Qed.

Lemma reload_witness :
  match run ex_dir ex_fs ex_events with
  | Completed d' fs' =>
      ReadStateDir fs' ex_root 7 = Ok d'
      ∧ ChangedPending (state d') = "mysql/3"
      ∧ Members (state d') = Some {["wordpress/0" := 2; "mysql/3" := 5]}
  | _ => False
  end.
Proof.
  destruct (run ex_dir ex_fs ex_events) as [d' fs'| | |] eqn:Hrun;
    try (vm_compute in Hrun; discriminate Hrun).
  split.
  - apply (reload_after_validated_writes ex_fs ex_root 7 ex_dir ex_events).
    + reflexivity.
    + intros ents Hents.
      assert (Hdir : resolve ex_fs (Join ex_root (Itoa 7)) = SysOk (Dir ∅))
        by reflexivity.
      rewrite Hdir in Hents. injection Hents as <-.
      intros name [n Hn]. by rewrite lookup_empty in Hn.
    + destruct ex_unit_names as [Hw Hm].
      apply Forall_cons. split; [split; [by left|exact Hw]|].
      apply Forall_cons. split; [split; [by right; left|exact Hw]|].
      apply Forall_cons. split; [split; [by left|exact Hm]|].
      apply Forall_nil_2.
    + exact Hrun.
  - vm_compute in Hrun. injection Hrun as <- <-. split; vm_compute; reflexivity.
Defined.

(** C3, as stated, fails on a join followed by the departure of the same
    unit, written without validation: both writes succeed, the cached state
    keeps the departed unit as its pending unit, and the reloaded state has
    none. *)
Lemma unvalidated_departure_counterexample :
  ReadStateDir ex_fs ex_root 7 = Ok ex_dir
  ∧ ∃ d fs,
      write_all ex_dir ex_fs [ex_joined; ex_departed] = Some (d, fs)
      ∧ Members (state d) = Some ∅
      ∧ ChangedPending (state d) = "wordpress/0"
      ∧ ReadStateDir fs ex_root 7 = Ok (fresh ex_root 7)
      ∧ ReadStateDir fs ex_root 7 ≠ Ok d.
Proof.
  split; [reflexivity|].
  eexists _, _. split; [vm_compute; reflexivity|].
  split; [reflexivity|]. split; [reflexivity|]. split; [vm_compute; reflexivity|].
  vm_compute. discriminate.
Qed.

(** ** Worked examples *)

(** The scenario of the specification: relation 7, unit [wordpress/0]. *)
Example scenario_joined :
  Write ex_dir ex_fs ex_joined
  = (Return None,
     {| path_ := ["state"; "relations"; "7"];
        state := {| RelationId := 7;
                    Members := Some {["wordpress/0" := 1]};
                    ChangedPending := "wordpress/0" |} |},
     ex_fs_with {["wordpress-0" := ex_record (Some 1) true]}).
Proof. vm_compute. reflexivity. Qed.

Example scenario_changed :
  Write ex_dir_joined ex_fs_joined ex_changed
  = (Return None,
     {| path_ := ["state"; "relations"; "7"];
        state := {| RelationId := 7;
                    Members := Some {["wordpress/0" := 2]};
                    ChangedPending := "" |} |},
     ex_fs_with {["wordpress-0" := ex_record (Some 2) false]}).
Proof. vm_compute. reflexivity. Qed.

Example scenario_complete :
  run ex_dir ex_fs [ex_joined; ex_changed; ex_departed; ex_broken]
  = Completed
      {| path_ := ["state"; "relations"; "7"];
         state := {| RelationId := 7; Members := None; ChangedPending := "" |} |}
      (Dir {["state" := Dir {["relations" := Dir ∅]}]}).
Proof. vm_compute. reflexivity. Qed.

(** A unit whose name has no number is validated and written, and its
    record is not read back: the form of the unit names matters to the
    reload. *)
Example unit_without_number_not_reloaded :
  ∃ d fs,
    run ex_dir ex_fs [ex_event hook.RelationJoined "wordpress" 1] = Completed d fs
    ∧ Members (state d) = Some {["wordpress" := 1]}
    ∧ ReadStateDir fs ex_root 7 = Ok (fresh ex_root 7).
Proof. eexists _, _. repeat split; vm_compute; reflexivity. Qed.

(** A "joined" event for the empty unit name, written where the directory
    of the relation is missing, leaves no pending unit: the pending unit of
    a state is empty when there is none. *)
Example empty_unit_is_never_pending :
  let fs := Dir {["state" := Dir {["relations" := Dir ∅]}]} in
  ∃ d fs',
    Write ex_dir fs (ex_event hook.RelationJoined "" 1) = (Return None, d, fs')
    ∧ ChangedPending (state d) = ""
    ∧ Validate (State_ d) (ex_event hook.RelationJoined "mysql/3" 1) = None.
Proof. eexists _, _. repeat split; vm_compute; reflexivity. Qed.

(** * Further properties of the package *)

(** ** Printing and parsing relation ids *)






(** Reading the decimal digits that [strconv.Itoa] prints. *)
Lemma digits_acc (d : Decimal.uint) (acc : positive) :
  digits (NilEmpty.string_of_uint d) (Z.pos acc) = Some (Z.pos (Pos.of_uint_acc d acc)).
Proof.
  revert acc. induction d as [|d IH|d IH|d IH|d IH|d IH|d IH|d IH|d IH|d IH|d IH];
    intros acc; [done|..]; cbn [NilEmpty.string_of_uint digits];
    change (digit _) with (Some 0) || change (digit _) with (Some 1)
    || change (digit _) with (Some 2) || change (digit _) with (Some 3)
    || change (digit _) with (Some 4) || change (digit _) with (Some 5)
    || change (digit _) with (Some 6) || change (digit _) with (Some 7)
    || change (digit _) with (Some 8) || change (digit _) with (Some 9);
    cbv iota beta; cbn [Pos.of_uint_acc];
    match goal with
    | |- digits _ ?z = _ => 
        match goal with |- _ = Some (Z.pos (Pos.of_uint_acc _ ?q)) =>
          replace z with (Z.pos q) by lia end
    end; apply IH.
Qed.

Lemma digits_uint (d : Decimal.uint) :
  digits (NilEmpty.string_of_uint d) 0 = Some (Z.of_N (Pos.of_uint d)).
Proof.
  induction d as [|d IH|d IH|d IH|d IH|d IH|d IH|d IH|d IH|d IH|d IH];
    [done|..]; cbn [NilEmpty.string_of_uint digits];
    change (digit _) with (Some 0) || change (digit _) with (Some 1)
    || change (digit _) with (Some 2) || change (digit _) with (Some 3)
    || change (digit _) with (Some 4) || change (digit _) with (Some 5)
    || change (digit _) with (Some 6) || change (digit _) with (Some 7)
    || change (digit _) with (Some 8) || change (digit _) with (Some 9);
    cbv iota beta; cbn [Pos.of_uint]; [exact IH|..];
    match goal with
    | |- digits _ ?z = _ => change z with (Z.pos (Z.to_pos z)); cbn [Z.to_pos Z.add Z.mul]
    end; rewrite digits_acc; reflexivity.
Qed.

Lemma digits_to_uint (p : positive) :
  digits (NilEmpty.string_of_uint (Pos.to_uint p)) 0 = Some (Z.pos p).
Proof. by rewrite digits_uint, Unsigned.of_to. Qed.

(** [strconv.Atoi] reads back what [strconv.Itoa] prints. *)
Lemma Atoi_Itoa (n : Z) : - 2 ^ 63 ≤ n < 2 ^ 63 → Atoi (Itoa n) = Some n.
Proof.
  intros Hn. unfold Itoa. destruct n as [|p|p]; [done| |].
  - cbn [Z.to_int NilZero.string_of_int].
    pose proof (Unsigned.to_uint_nonnil p) as Hnil.
    pose proof (digits_to_uint p) as Hd.
    assert (Hs : NilZero.string_of_uint (Pos.to_uint p)
                 = NilEmpty.string_of_uint (Pos.to_uint p)) by (by destruct (Pos.to_uint p)).
    rewrite Hs.
    destruct (NilEmpty.string_of_uint (Pos.to_uint p)) as [|a s] eqn:Hstr.
    { by destruct (Pos.to_uint p). }
    assert (Hdig : is_Some (digit a)).
    { simpl in Hd. destruct (digit a); [by eexists|done]. }
    unfold Atoi.
    rewrite (digit_not a "-"%char Hdig), (digit_not a "+"%char Hdig) by (left; by vm_compute).
    cbn [orb]. rewrite Hd.
    destruct (Z.ltb_spec (Z.pos p) (2 ^ 63)); [done|lia].
  - cbn [Z.to_int NilZero.string_of_int].
    pose proof (Unsigned.to_uint_nonnil p) as Hnil.
    pose proof (digits_to_uint p) as Hd.
    assert (Hs : NilZero.string_of_uint (Pos.to_uint p)
                 = NilEmpty.string_of_uint (Pos.to_uint p)) by (by destruct (Pos.to_uint p)).
    rewrite Hs. unfold Atoi.
    change (Ascii.eqb "-" "-")%char with true. rewrite orb_true_r. cbv iota.
    destruct (NilEmpty.string_of_uint (Pos.to_uint p)) as [|a s] eqn:Hstr.
    { by destruct (Pos.to_uint p). }
    rewrite Hd.
    destruct (Z.leb_spec (Z.pos p) (2 ^ 63)); [done|lia].
Qed.

(** ** What [Write] changes and what it leaves alone *)

(** X1: the copy of a state has the relation id and the pending unit of the
    state; nil members stay nil, and a map of members, the empty one too, is
    copied to a map that answers every lookup as the original does. *)
Theorem copy_keeps_state (s : State) :
  RelationId (copy s) = RelationId s
  ∧ ChangedPending (copy s) = ChangedPending s
  ∧ (Members s = None → Members (copy s) = None)
  ∧ (∀ m, Members s = Some m →
       ∃ m', Members (copy s) = Some m' ∧ ∀ u, m' !! u = m !! u).
Proof.
  pose proof (copy_id s) as H. rewrite H. repeat split; [done|].
  intros m Hm. by exists m.
Qed.

(** X2: a write that returns an error has changed neither the cached state
    nor the file system, and the error is the error of the file system call
    under the context of the event. *)
Theorem Write_error_changes_nothing (d : StateDir) (fs : node) (e : hook.Info)
    (err : error) (d' : StateDir) (fs' : node) :
  Write d fs e = (Return (Some err), d', fs') →
  d' = d ∧ fs' = fs
  ∧ ∃ cause, err = Context (FailedToWrite (hook.Kind_ e) (hook.RemoteUnit e))
                     (PathError cause).
Proof.
  unfold Write.
  destruct (String.eqb (hook.Kind_ e) hook.RelationBroken).
  { destruct (Remove fs _) as [?|c]; [done|].
    destruct (IsNotExist c); simpl; [done|]. intros [= <- <- <-]. eauto. }
  destruct (String.eqb (hook.Kind_ e) hook.RelationDeparted).
  { destruct (Remove fs _) as [?|c]; [done|].
    destruct (IsNotExist c); simpl; [done|]. intros [= <- <- <-]. eauto. }
  destruct (WriteYaml _ _ _) as [?|c].
  - by destruct (Members (state d)).
  - intros [= <- <- <-]. eauto.
Qed.

Lemma write_error_witness :
  (Write ex_dir ex_fs_bare ex_joined).1.2 = ex_dir
  ∧ (Write ex_dir ex_fs_bare ex_joined).2 = ex_fs_bare
  ∧ ∃ cause,
      Context (FailedToWrite hook.RelationJoined "wordpress/0") (PathError ENOENT)
      = Context (FailedToWrite (hook.Kind_ ex_joined) (hook.RemoteUnit ex_joined))
          (PathError cause).
Proof.
  apply (Write_error_changes_nothing ex_dir ex_fs_bare ex_joined). reflexivity.
Defined.

(** X3: whatever its outcome, a write keeps the path and the relation id of
    the state directory; unless it is a teardown it leaves the entries of
    all other units as they are; and a teardown or a departure leaves the
    pending unit as it is. *)
Theorem Write_keeps_the_rest (d : StateDir) (fs : node) (e : hook.Info) :
  let d' := (Write d fs e).1.2 in
  path_ d' = path_ d
  ∧ RelationId (state d') = RelationId (state d)
  ∧ (hook.Kind_ e ≠ hook.RelationBroken →
     ∀ u, u ≠ hook.RemoteUnit e →
       entries_of (Members (state d')) !! u = entries_of (Members (state d)) !! u)
  ∧ (hook.Kind_ e = hook.RelationBroken ∨ hook.Kind_ e = hook.RelationDeparted →
     ChangedPending (state d') = ChangedPending (state d)).
Proof.
  unfold Write.
  destruct (String.eqb_spec (hook.Kind_ e) hook.RelationBroken) as [Hb|Hb].
  { destruct (Remove fs _) as [?|c]; [|destruct (IsNotExist c)]; simpl; repeat split; done. }
  destruct (String.eqb_spec (hook.Kind_ e) hook.RelationDeparted) as [Hd|Hd].
  { assert (Hdel : ∀ u, u ≠ hook.RemoteUnit e →
              entries_of (delete (hook.RemoteUnit e) <$> Members (state d)) !! u
              = entries_of (Members (state d)) !! u).
    { intros u Hu. destruct (Members (state d)); simpl; [|done].
      by rewrite lookup_delete_ne. }
    destruct (Remove fs _) as [?|c]; [|destruct (IsNotExist c)]; simpl;
      repeat split; try done; intros _; exact Hdel. }
  destruct (WriteYaml _ _ _) as [?|c];
    [|simpl; repeat split; try done; try (intros [?|?]; done)].
  destruct (Members (state d)) as [m|] eqn:Hm; simpl.
  - repeat split; try done; try (intros [?|?]; done).
    intros _ u Hu. by rewrite lookup_insert_ne.
  - repeat split; try done; try (intros [?|?]; done).
    intros _ u _. by rewrite Hm.
Qed.

(** X4: a write panics exactly when a join or a change is written through
    a state directory whose members are nil, as after a teardown, and the
    record file could be written: the file is then on disk while the cached
    state is unchanged. *)
Theorem Write_panics_only_torn_down (d : StateDir) (fs : node) (e : hook.Info) :
  (Write d fs e).1.1 = Panic
  ↔ Members (state d) = None
    ∧ hook.Kind_ e ≠ hook.RelationBroken
    ∧ hook.Kind_ e ≠ hook.RelationDeparted
    ∧ ∃ fs', WriteYaml fs (Join (path_ d) (Replace1 (hook.RemoteUnit e) slash hyphen))
               {| di_ChangeVersion := Some (hook.ChangeVersion e);
                  di_ChangedPending := String.eqb (hook.Kind_ e) hook.RelationJoined |}
             = SysOk fs'
             ∧ Write d fs e = (Panic, d, fs').
Proof.
  unfold Write.
  destruct (String.eqb_spec (hook.Kind_ e) hook.RelationBroken) as [Hb|Hb].
  { split; [|tauto]. destruct (Remove fs _) as [?|c]; [|destruct (IsNotExist c)]; done. }
  destruct (String.eqb_spec (hook.Kind_ e) hook.RelationDeparted) as [Hd|Hd].
  { split; [|tauto]. destruct (Remove fs _) as [?|c]; [|destruct (IsNotExist c)]; done. }
  destruct (WriteYaml _ _ _) as [fs1|c].
  - destruct (Members (state d)) as [m|]; simpl.
    + split; [done|]. by intros [? _].
    + split; [|done]. intros _. repeat split; try done. by exists fs1.
  - simpl. split; [done|]. by intros (_ & _ & _ & fs' & ? & _).
Qed.

(** X5: once a teardown has been written, the state that the directory
    hands out fails validation for every event: the relation is already
    broken, or the event is for another relation. *)
Theorem nothing_validates_after_teardown (d : StateDir) (fs : node) (e : hook.Info)
    (d' : StateDir) (fs' : node) (e' : hook.Info) :
  hook.Kind_ e = hook.RelationBroken →
  Write d fs e = (Return None, d', fs') →
  Validate (State_ d') e'
  = Some (Context (Inappropriate (hook.Kind_ e') (hook.RemoteUnit e'))
            (if decide (hook.RelationId e' = RelationId (state d))
             then RelationAlreadyBroken
             else WrongRelation (RelationId (state d)) (hook.RelationId e'))).
Proof.
  intros Hk Hw. rewrite (Write_broken_ok _ _ _ _ _ Hk Hw), State_id.
  unfold Validate, Validate_body. simpl.
  destruct (Z.eqb_spec (hook.RelationId e') (RelationId (state d))) as [Hid|Hid];
    destruct (decide _); done.
Qed.

Lemma after_teardown_witness :
  Validate (State_ (Write ex_dir ex_fs ex_broken).1.2) ex_joined
  = Some (Context (Inappropriate hook.RelationJoined "wordpress/0") RelationAlreadyBroken).
Proof.
  apply (nothing_validates_after_teardown ex_dir ex_fs ex_broken
           (Write ex_dir ex_fs ex_broken).1.2 (Write ex_dir ex_fs ex_broken).2 ex_joined);
    reflexivity.
Defined.

Lemma Remove_not_empty (fs : node) (p : path) (ents : gmap string node) :
  p ≠ [] → resolve fs p = SysOk (Dir ents) → ents ≠ ∅ →
  Remove fs p = SysErr ENOTEMPTY.
Proof.
  revert fs. induction p as [|c p IH]; intros fs Hp Hdir Hne; [done|].
  destruct fs as [?|top]; [done|]. simpl in Hdir.
  destruct (top !! c) as [n|] eqn:Hc; [|done].
  destruct p as [|c' p].
  - simpl in Hdir. injection Hdir as ->. simpl. rewrite Hc.
    destruct (Nat.eqb (size ents) 0) eqn:Hs; [|done].
    apply Nat.eqb_eq, map_size_empty_iff in Hs. done.
  - rewrite Remove_below by done. rewrite Hc. by rewrite (IH n).
Qed.

Lemma Remove_empty_dir (fs : node) (p : path) :
  p ≠ [] → resolve fs p = SysOk (Dir ∅) →
  ∃ fs', Remove fs p = SysOk fs'.
Proof.
  revert fs. induction p as [|c p IH]; intros fs Hp Hdir; [done|].
  destruct fs as [?|top]; [done|]. simpl in Hdir.
  destruct (top !! c) as [n|] eqn:Hc; [|done].
  destruct p as [|c' p].
  - simpl in Hdir. injection Hdir as ->. simpl. rewrite Hc. simpl. eauto.
  - rewrite Remove_below by done. rewrite Hc.
    destruct (IH n) as [n' ->]; [done|done|]. eauto.
Qed.

(** X6: writing a teardown removes the directory of the relation only when
    it is empty: with entries left the write fails, the directory is not
    empty, and nothing changes; on an empty directory it succeeds, the
    directory is gone and the members are nil. *)
Theorem teardown_needs_an_empty_directory (d : StateDir) (fs : node) (e : hook.Info)
    (ents : gmap string node) :
  hook.Kind_ e = hook.RelationBroken →
  path_ d ≠ [] →
  resolve fs (path_ d) = SysOk (Dir ents) →
  (ents ≠ ∅ →
   Write d fs e
   = (Return (Some (Context (FailedToWrite (hook.Kind_ e) (hook.RemoteUnit e))
                      (PathError ENOTEMPTY))), d, fs))
  ∧ (ents = ∅ →
     ∃ fs', Write d fs e = (Return None, with_state d (with_Members (state d) None), fs')
            ∧ resolve fs' (path_ d) = SysErr ENOENT).
Proof.
  intros Hk Hp Hdir. unfold Write. rewrite Hk.
  change (String.eqb hook.RelationBroken hook.RelationBroken) with true. cbv iota.
  split.
  - intros Hne. by rewrite (Remove_not_empty _ _ _ Hp Hdir Hne).
  - intros ->. destruct (Remove_empty_dir _ _ Hp Hdir) as [fs' Hr]. rewrite Hr.
    exists fs'. split; [done|]. by eapply Remove_gone.
Qed.

Lemma teardown_witness :
  ∃ fs', Write ex_dir ex_fs ex_broken
         = (Return None, with_state ex_dir (with_Members (state ex_dir) None), fs')
         ∧ resolve fs' (path_ ex_dir) = SysErr ENOENT.
Proof.
  apply (teardown_needs_an_empty_directory ex_dir ex_fs ex_broken ∅);
    [reflexivity|by vm_compute|reflexivity|reflexivity].
Defined.

(** ** What the load functions return *)

(** X7: in a state that [ReadStateDir] returns, the unit whose change is
    pending, when there is one, is a member. *)
Theorem loaded_pending_is_member (fs : node) (dirPath : path) (id : Z) (d : StateDir) :
  ReadStateDir fs dirPath id = Ok d → pending_is_member (state d).
Proof.
  unfold ReadStateDir, fresh, Stat. cbn [path_].
  destruct (resolve fs _) as [n|e].
  2: { destruct (IsNotExist e); [|done]. intros [= <-]. by left. }
  destruct (ReadDir fs _) as [fis|e] eqn:Hfis; [|done].
  destruct (readEntries _ _ fis _ _) as [[m cp]|e] eqn:Hread; [|done].
  simpl. intros [= <-]. simpl.
  destruct (ReadDir_names _ _ _ Hfis) as (ents & _ & Hnodup & _).
  destruct (readEntries_sound _ _ fis Hnodup _ _ _ _ Hread) as (I1 & _ & I3).
  destruct I3 as [->|(_ & name & v & Hin & Hu & _)]; [by left|].
  right. exists m. split; [done|].
  destruct (I1 name cp Hin Hu) as (v' & b & _ & Hv & _). simpl. by rewrite Hv.
Qed.

Lemma loaded_pending_witness : pending_is_member (state ex_dir_joined).
Proof.
  apply (loaded_pending_is_member ex_fs_joined ex_root 7 ex_dir_joined).
  vm_compute. reflexivity.
Defined.

(** X8: writing an event that passed validation keeps the pending unit,
    when there is one, among the members. *)
Theorem validated_write_keeps_pending_member (d : StateDir) (fs : node) (e : hook.Info)
    (d' : StateDir) (fs' : node) :
  pending_is_member (state d) →
  Validate (State_ d) e = None →
  Write d fs e = (Return None, d', fs') →
  pending_is_member (state d').
Proof.
  intros Hinv Hvalid Hwrite. rewrite State_id in Hvalid.
  destruct (decide (hook.Kind_ e = hook.RelationBroken)) as [Hb|Hb].
  { rewrite (Write_broken_ok _ _ _ _ _ Hb Hwrite). simpl.
    destruct Hinv as [?|(m & Hm & Hin)]; [by left|]. left.
    unfold Validate, Validate_body in Hvalid.
    destruct (Z.eqb (hook.RelationId e) (RelationId (state d))); [|done]. simpl in Hvalid.
    rewrite Hm, Hb in Hvalid. simpl in Hvalid.
    destruct (Nat.eqb (size m) 0) eqn:Hs; [|done].
    apply size_zero_empty in Hs. subst m. rewrite lookup_empty in Hin. by destruct Hin. }
  destruct (decide (hook.Kind_ e = hook.RelationDeparted)) as [Hd|Hd].
  { rewrite (Write_departed_ok _ _ _ _ _ Hd Hwrite). simpl.
    destruct (Members (state d)) as [m|] eqn:Hm.
    - destruct (Validate_unit_event _ _ _ Hvalid Hm Hb) as [(_ & _ & Hc)|(Hcp & _)];
        [by rewrite Hd in Hc|by left].
    - destruct Hinv as [?|(m & ? & _)]; [by left|congruence]. }
  destruct (Write_put_ok _ _ _ _ _ Hb Hd Hwrite) as (m & Hm & -> & _). simpl.
  destruct (String.eqb (hook.Kind_ e) hook.RelationJoined); [|by left].
  right. eexists. split; [done|]. by rewrite lookup_insert_eq.
Qed.

Lemma pending_member_witness :
  pending_is_member (state (Write ex_dir_joined ex_fs_joined ex_changed).1.2).
Proof.
  apply (validated_write_keeps_pending_member ex_dir_joined ex_fs_joined ex_changed
           _ (Write ex_dir_joined ex_fs_joined ex_changed).2).
  - right. exists {["wordpress/0" := 1]}. split; [reflexivity|]. by exists 1.
  - reflexivity.
  - reflexivity.
Defined.

(** X9: the record file names that [Write] builds and the unit names that
    [ReadStateDir] reads off file names are inverse to each other: the file
    name of a unit name is a plain file name that reads back as the unit,
    and a file name that reads as a unit is the file name of that unit. *)
Theorem record_name_round_trip :
  (∀ u, UnitName u →
     contains slash (Replace1 u slash hyphen) = false
     ∧ unitOfEntry (Replace1 u slash hyphen) = Some u)
  ∧ (∀ name u, contains slash name = false → unitOfEntry name = Some u →
       UnitName u ∧ Replace1 u slash hyphen = name).
Proof.
  split.
  - intros u Hu. destruct (UnitName_file u Hu) as [? ?]. done.
  - intros name u Hslash Hu.
    apply unitOfEntry_inv in Hu as (svc & uid & -> & -> & Hh & Ha).
    rewrite contains_app in Hslash. apply orb_false_iff in Hslash as [Hsvc _].
    split.
    + exists svc, uid. done.
    + by apply Replace1_unit.
Qed.

Lemma LoadedDir_stray (ents : gmap string node) (name : string) (n : node)
    (m : gmap string Z) (cp : string) :
  unitOfEntry name = None →
  LoadedDir (<[name:=n]> ents) m cp ↔ LoadedDir ents m cp.
Proof.
  intros Hnone.
  assert (Hlook : ∀ name' u, unitOfEntry name' = Some u →
            (<[name:=n]> ents) !! name' = ents !! name').
  { intros name' u Hu. apply lookup_insert_ne. congruence. }
  split; intros (L1 & L2 & L3); (split; [|split]).
  - intros name' u Hs Hu. rewrite <- (Hlook _ _ Hu) in Hs |- *. by apply L1.
  - intros u Hs. destruct (L2 u Hs) as (name' & Hn & Hu). exists name'.
    by rewrite <- (Hlook _ _ Hu).
  - intros Hne. destruct (L3 Hne) as (name' & v & Hu & Hr). exists name', v.
    by rewrite <- (Hlook _ _ Hu).
  - intros name' u Hs Hu. rewrite (Hlook _ _ Hu) in Hs |- *. by apply L1.
  - intros u Hs. destruct (L2 u Hs) as (name' & Hn & Hu). exists name'.
    by rewrite (Hlook _ _ Hu).
  - intros Hne. destruct (L3 Hne) as (name' & v & Hu & Hr). exists name', v.
    by rewrite (Hlook _ _ Hu).
Qed.

(** X10: an entry of the relation's directory whose name is not that of a
    unit's record, whatever the entry is, makes no difference to what
    [ReadStateDir] loads. *)
Theorem stray_entries_are_ignored (fs1 fs2 : node) (dirPath : path) (id : Z)
    (ents : gmap string node) (name : string) (n : node) (d : StateDir) :
  resolve fs1 (Join dirPath (Itoa id)) = SysOk (Dir ents) →
  resolve fs2 (Join dirPath (Itoa id)) = SysOk (Dir (<[name:=n]> ents)) →
  file_names ents →
  contains slash name = false →
  unitOfEntry name = None →
  ReadStateDir fs1 dirPath id = Ok d ↔ ReadStateDir fs2 dirPath id = Ok d.
Proof.
  intros H1 H2 Hnames Hslash Hnone.
  rewrite (ReadStateDir_LoadedDir _ _ _ _ _ H1 Hnames).
  rewrite (ReadStateDir_LoadedDir _ _ _ _ _ H2 (file_names_insert _ _ _ Hslash Hnames)).
  split; intros (m & cp & -> & Hl); exists m, cp; (split; [done|]);
    by apply (LoadedDir_stray ents name n).
Qed.

Lemma stray_entry_witness :
  ReadStateDir (ex_fs_with ∅) ex_root 7 = Ok ex_dir
  ↔ ReadStateDir (ex_fs_with {["notes" := File NotYaml]}) ex_root 7 = Ok ex_dir.
Proof.
  apply (stray_entries_are_ignored _ _ ex_root 7 ∅ "notes" (File NotYaml) ex_dir);
    [reflexivity|reflexivity| |reflexivity|reflexivity].
  intros name [n Hn]. by rewrite lookup_empty in Hn.
Defined.

(** X11: when the path of the relation's directory leads to or through a
    plain file, [ReadStateDir] fails: only a path that does not exist is
    taken for a relation without state. *)
Theorem ReadStateDir_not_a_directory (fs : node) (dirPath : path) (id : Z) :
  (∃ c, resolve fs (Join dirPath (Itoa id)) = SysOk (File c))
  ∨ resolve fs (Join dirPath (Itoa id)) = SysErr ENOTDIR →
  ReadStateDir fs dirPath id
  = Err (Context (CannotLoadRelationState (Join dirPath (Itoa id))) (PathError ENOTDIR)).
Proof.
  unfold ReadStateDir, fresh, Stat, ReadDir. cbn [path_].
  intros [[c ->]| ->]; done.
Qed.

Lemma not_a_directory_witness :
  ReadStateDir (ex_fs_with {["3" := File NotYaml]}) ["state"; "relations"; "7"] 3
  = Err (Context (CannotLoadRelationState ["state"; "relations"; "7"; "3"])
           (PathError ENOTDIR)).
Proof.
  apply (ReadStateDir_not_a_directory (ex_fs_with {["3" := File NotYaml]})
           ["state"; "relations"; "7"] 3).
  left. exists NotYaml. reflexivity.
Defined.

Lemma readAllEntries_values (fs : node) (dirPath : path) (fis : list string) :
  ∀ (dirs0 dirs : gmap Z StateDir),
  readAllEntries fs dirPath fis dirs0 = Ok dirs →
  ∀ id d, dirs !! id = Some d →
          dirs0 !! id = Some d ∨ ReadStateDir fs dirPath id = Ok d.
Proof.
  induction fis as [|name rest IH]; intros dirs0 dirs Hread id d Hd.
  { injection Hread as <-. by left. }
  cbn [readAllEntries] in Hread. destruct (Atoi name) as [id0|]; [|by eapply IH].
  destruct (ReadStateDir fs dirPath id0) as [dir|] eqn:Hdir; [|done].
  destruct (IH _ _ Hread id d Hd) as [H0|?]; [|by right].
  apply lookup_insert_Some in H0 as [[<- <-]|[_ ?]]; [by right|by left].
Qed.

(** X12: each state directory in the result of [ReadAllStateDirs] is what
    [ReadStateDir] loads for its key: its path is the root path joined with
    the key in decimal, and its relation id is the key. *)
Theorem ReadAllStateDirs_values (fs : node) (dirPath : path)
    (dirs : gmap Z StateDir) (id : Z) (d : StateDir) :
  ReadAllStateDirs fs dirPath = Ok (Some dirs) →
  dirs !! id = Some d →
  ReadStateDir fs dirPath id = Ok d
  ∧ path_ d = Join dirPath (Itoa id)
  ∧ RelationId (state d) = id.
Proof.
  unfold ReadAllStateDirs.
  destruct (Stat fs dirPath) as [n|e]; [|by destruct (IsNotExist e)].
  destruct (ReadDir fs dirPath) as [fis|e]; [|done].
  destruct (readAllEntries fs dirPath fis ∅) as [dirs'|e] eqn:Hread; [|done].
  intros [= <-] Hd.
  destruct (readAllEntries_values _ _ _ _ _ Hread id d Hd) as [H0|Hok];
    [by rewrite lookup_empty in H0|].
  split; [done|]. destruct (ReadStateDir_loaded _ _ _ _ Hok) as (? & ? & _). done.
Qed.

Lemma all_values_witness :
  ReadStateDir ex_fs_negative ex_root (-3) = Ok (fresh ex_root (-3))
  ∧ path_ (fresh ex_root (-3)) = Join ex_root (Itoa (-3))
  ∧ RelationId (state (fresh ex_root (-3))) = -3.
Proof.
  apply (ReadAllStateDirs_values ex_fs_negative ex_root
           {[-3 := fresh ex_root (-3); 7 := fresh ex_root 7]}).
  - vm_compute. reflexivity.
  - vm_compute. reflexivity.
Defined.

Lemma readAllEntries_ok_iff (fs : node) (dirPath : path) (fis : list string) :
  ∀ dirs0 : gmap Z StateDir,
  (∃ dirs, readAllEntries fs dirPath fis dirs0 = Ok dirs)
  ↔ ∀ name id, name ∈ fis → Atoi name = Some id →
               ∃ d, ReadStateDir fs dirPath id = Ok d.
Proof.
  induction fis as [|name rest IH]; intros dirs0.
  { split; [|by eauto]. intros _ name id Hin. by apply elem_of_nil in Hin. }
  cbn [readAllEntries]. destruct (Atoi name) as [id0|] eqn:Hid0.
  - destruct (ReadStateDir fs dirPath id0) as [dir|e] eqn:Hdir.
    + rewrite IH. split.
      * intros H name' id [->|Hin]%elem_of_cons Hid; [|by eapply H].
        assert (id = id0) as -> by congruence. eauto.
      * intros H name' id Hin. apply H. by right.
    + split; [by intros [? ?]|]. intros H.
      destruct (H name id0) as [d Hd]; [by left|done|]. congruence.
  - rewrite IH. split.
    + intros H name' id [->|Hin]%elem_of_cons Hid; [congruence|by eapply H].
    + intros H name' id Hin. apply H. by right.
Qed.

(** X13: on a root directory [ReadAllStateDirs] succeeds exactly when
    [ReadStateDir] succeeds for every entry whose name parses as an integer:
    one bad relation directory fails the whole call. *)
Theorem ReadAllStateDirs_all_or_nothing (fs : node) (dirPath : path)
    (ents : gmap string node) :
  resolve fs dirPath = SysOk (Dir ents) →
  (∃ dirs, ReadAllStateDirs fs dirPath = Ok (Some dirs))
  ↔ ∀ name id, is_Some (ents !! name) → Atoi name = Some id →
               ∃ d, ReadStateDir fs dirPath id = Ok d.
Proof.
  intros Hdir. destruct (ReadDir_dir _ _ _ Hdir) as [fis Hfis].
  destruct (ReadDir_names _ _ _ Hfis) as (ents' & Hdir' & _ & Hin).
  rewrite Hdir in Hdir'. injection Hdir' as <-.
  unfold ReadAllStateDirs, Stat. rewrite Hdir, Hfis.
  transitivity (∃ dirs, readAllEntries fs dirPath fis ∅ = Ok dirs).
  - destruct (readAllEntries fs dirPath fis ∅) as [dirs|e]; simpl.
    + split; eauto.
    + split; intros [? ?]; done.
  - rewrite readAllEntries_ok_iff. split.
    + intros H name id Hn. apply H. by apply Hin.
    + intros H name id Hn. apply H. by apply Hin.
Qed.

Lemma all_or_nothing_witness :
  (∃ dirs, ReadAllStateDirs ex_fs_negative ex_root = Ok (Some dirs))
  ↔ ∀ name id,
      is_Some (({["-3" := Dir ∅; "7" := Dir ∅; "notes" := File NotYaml]}
                : gmap string node) !! name) →
      Atoi name = Some id →
      ∃ d, ReadStateDir ex_fs_negative ex_root id = Ok d.
Proof.
  apply (ReadAllStateDirs_all_or_nothing ex_fs_negative ex_root). reflexivity.
Defined.

(** ** Paths that a write does not touch *)

Lemma apart_cons (c : string) (p q : path) : apart (c :: p) (c :: q) → apart p q.
Proof.
  intros [H1 H2]. split; intros H; [apply H1|apply H2]; by apply prefix_cons.
Qed.

Lemma apart_nil_l (q : path) : ¬ apart [] q.
Proof. intros [H _]. apply H. apply prefix_nil. Qed.

Lemma apart_nil_r (p : path) : ¬ apart p [].
Proof. intros [_ H]. apply H. apply prefix_nil. Qed.

(** A write leaves alone what is at the paths apart from its own. *)
Lemma WriteYaml_frame (fs : node) (p : path) (di : diskInfo) (fs' : node) (q : path) :
  WriteYaml fs p di = SysOk fs' → apart p q → resolve fs' q = resolve fs q.
Proof.
  revert fs fs' q. induction p as [|c p IH]; intros fs fs' q Hw Hap; [done|].
  destruct q as [|c2 q]; [by apply apart_nil_r in Hap|].
  destruct fs as [?|ents]; [done|].
  destruct p as [|c' p].
  - simpl in Hw.
    assert (fs' = Dir (<[c:=File (Yaml di)]> ents)) as ->.
    { destruct (ents !! c) as [[?|?]|]; congruence. }
    simpl. rewrite lookup_insert_ne; [done|].
    intros <-. destruct Hap as [H _]. apply H. apply prefix_cons, prefix_nil.
  - rewrite WriteYaml_deep in Hw. destruct (ents !! c) as [n|] eqn:Hc; [|done].
    destruct (WriteYaml n (c' :: p) di) as [n'|] eqn:Hn; [|done]. injection Hw as <-.
    simpl. destruct (decide (c = c2)) as [<-|Hne].
    + rewrite lookup_insert_eq, Hc. apply (IH _ _ _ Hn). by eapply apart_cons.
    + by rewrite lookup_insert_ne.
Qed.

Lemma Remove_frame (fs : node) (p : path) (fs' : node) (q : path) :
  Remove fs p = SysOk fs' → apart p q → resolve fs' q = resolve fs q.
Proof.
  revert fs fs' q. induction p as [|c p IH]; intros fs fs' q Hw Hap; [done|].
  destruct q as [|c2 q]; [by apply apart_nil_r in Hap|].
  destruct fs as [?|ents]; [done|].
  destruct p as [|c' p].
  - simpl in Hw. destruct (ents !! c) as [n|] eqn:Hc; [|done].
    assert (fs' = Dir (delete c ents)) as ->.
    { destruct n as [?|sub]; [congruence|]. destruct (Nat.eqb (size sub) 0); congruence. }
    simpl. rewrite lookup_delete_ne; [done|].
    intros <-. destruct Hap as [H _]. apply H. apply prefix_cons, prefix_nil.
  - rewrite Remove_below in Hw by done. destruct (ents !! c) as [n|] eqn:Hc; [|done].
    destruct (Remove n (c' :: p)) as [n'|] eqn:Hn; [|done]. injection Hw as <-.
    simpl. destruct (decide (c = c2)) as [<-|Hne].
    + rewrite lookup_insert_eq, Hc. apply (IH _ _ _ Hn). by eapply apart_cons.
    + by rewrite lookup_insert_ne.
Qed.

Lemma Write_frame (d : StateDir) (fs : node) (e : hook.Info) (q : path) :
  apart (written_path d e) q →
  resolve (Write d fs e).2 q = resolve fs q.
Proof.
  unfold written_path, Write.
  destruct (String.eqb (hook.Kind_ e) hook.RelationBroken).
  { intros Hap. destruct (Remove fs _) as [fs'|c] eqn:Hr.
    - by apply (Remove_frame _ _ _ _ Hr).
    - by destruct (IsNotExist c). }
  intros Hap.
  destruct (String.eqb (hook.Kind_ e) hook.RelationDeparted).
  { destruct (Remove fs _) as [fs'|c] eqn:Hr.
    - by apply (Remove_frame _ _ _ _ Hr).
    - by destruct (IsNotExist c). }
  destruct (WriteYaml fs _ _) as [fs'|c] eqn:Hw; [|done].
  destruct (Members (state d)); by apply (WriteYaml_frame _ _ _ _ _ Hw).
Qed.

(** A record file that has been written holds the record. *)
Lemma WriteYaml_written (fs : node) (p : path) (di : diskInfo) (fs' : node) :
  WriteYaml fs p di = SysOk fs' → resolve fs' p = SysOk (File (Yaml di)).
Proof.
  revert fs fs'. induction p as [|c p IH]; intros fs fs'; [done|].
  destruct fs as [?|ents]; [done|]. destruct p as [|c' p].
  - simpl. destruct (ents !! c) as [[?|?]|]; try done;
      intros [= <-]; simpl; by rewrite lookup_insert_eq.
  - rewrite WriteYaml_deep. destruct (ents !! c) as [n|]; [|done].
    destruct (WriteYaml n (c' :: p) di) as [n'|] eqn:Hw; [|done].
    intros [= <-]. cbn [resolve]. rewrite lookup_insert_eq. by apply (IH n).
Qed.

(** X14: a write works on one path only, the directory for a teardown and
    the record file of the unit otherwise: whatever is at a path apart from
    it is left as it was. After a write that returned nil, nothing is at
    that path for a teardown or a departure, and the record of the event is
    for a join or a change. *)
Theorem Write_touches_one_path (d : StateDir) (fs : node) (e : hook.Info) :
  (∀ q, apart (written_path d e) q → resolve (Write d fs e).2 q = resolve fs q)
  ∧ (∀ d' fs', Write d fs e = (Return None, d', fs') →
       if String.eqb (hook.Kind_ e) hook.RelationBroken
          || String.eqb (hook.Kind_ e) hook.RelationDeparted
       then resolve fs' (written_path d e) = SysErr ENOENT
       else ReadYaml fs' (written_path d e)
            = Ok {| di_ChangeVersion := Some (hook.ChangeVersion e);
                    di_ChangedPending :=
                      String.eqb (hook.Kind_ e) hook.RelationJoined |}).
Proof.
  split; [intros q Hq; by apply Write_frame|].
  intros d' fs'. unfold written_path, Write.
  destruct (String.eqb (hook.Kind_ e) hook.RelationBroken); cbn [orb].
  { destruct (Remove fs _) as [fs1|c] eqn:Hr.
    - intros [= _ <-]. by eapply Remove_gone.
    - destruct c; try done. simpl. intros [= _ <-]. by apply Remove_tolerated. }
  destruct (String.eqb (hook.Kind_ e) hook.RelationDeparted).
  { destruct (Remove fs _) as [fs1|c] eqn:Hr.
    - intros [= _ <-]. by eapply Remove_gone.
    - destruct c; try done. simpl. intros [= _ <-]. by apply Remove_tolerated. }
  destruct (WriteYaml fs _ _) as [fs1|c] eqn:Hw; [|done].
  destruct (Members (state d)); [|done]. intros [= _ <-].
  unfold ReadYaml. by rewrite (WriteYaml_written _ _ _ _ Hw).
Qed.






(** A unit name that leads out of the directory: the join is written
    through relation 7 and lands in the directory of relation -3. *)
Example unit_name_can_leave_the_directory :
  (Write ex_dir ex_fs_negative
     (ex_event hook.RelationJoined "a/../../../-3/x-1" 1)).1.1 = Return None
  ∧ ReadStateDir ex_fs_negative ex_root (-3) = Ok (fresh ex_root (-3))
  ∧ ReadStateDir
      (Write ex_dir ex_fs_negative
         (ex_event hook.RelationJoined "a/../../../-3/x-1" 1)).2 ex_root (-3)
    = Ok (with_state (fresh ex_root (-3))
            {| RelationId := -3; Members := Some {["x/1" := 1]};
               ChangedPending := "x/1" |}).
Proof. repeat split; vm_compute; reflexivity. Qed.

(** ** Ensuring and finding directories *)

Lemma ReadAllStateDirs_loop (fs : node) (dirPath : path) (dirs : gmap Z StateDir) :
  ReadAllStateDirs fs dirPath = Ok (Some dirs) →
  ∃ fis, ReadDir fs dirPath = SysOk fis ∧ readAllEntries fs dirPath fis ∅ = Ok dirs.
Proof.
  unfold ReadAllStateDirs.
  destruct (Stat fs dirPath) as [n|e]; [|by destruct (IsNotExist e)].
  destruct (ReadDir fs dirPath) as [fis|e]; [|done].
  destruct (readAllEntries fs dirPath fis ∅) as [dirs'|e] eqn:Hread; [|done].
  intros [= <-]. eauto.
Qed.

(** X16: every entry of the root directory that is named by a relation id
    in decimal is in the result of [ReadAllStateDirs], under that id, and is
    what [ReadStateDir] loads for it. *)
Theorem relation_directory_is_found (fs : node) (dirPath : path) (id : Z)
    (ents : gmap string node) (dirs : gmap Z StateDir) :
  - 2 ^ 63 ≤ id < 2 ^ 63 →
  resolve fs dirPath = SysOk (Dir ents) →
  is_Some (ents !! Itoa id) →
  ReadAllStateDirs fs dirPath = Ok (Some dirs) →
  ∃ d, dirs !! id = Some d ∧ ReadStateDir fs dirPath id = Ok d.
Proof.
  intros Hid Hdir Hent Hall.
  destruct (ReadAllStateDirs_loop _ _ _ Hall) as (fis & Hfis & Hread).
  destruct (ReadDir_names _ _ _ Hfis) as (ents' & Hdir' & _ & Hin).
  rewrite Hdir in Hdir'. injection Hdir' as <-.
  assert (Hsome : is_Some (dirs !! id)).
  { apply (readAllEntries_dom _ _ _ _ _ Hread). right. exists (Itoa id).
    split; [by apply Hin|by apply Atoi_Itoa]. }
  destruct Hsome as [d Hd]. exists d. split; [done|].
  destruct (readAllEntries_values _ _ _ _ _ Hread id d Hd) as [H0|?]; [|done].
  by rewrite lookup_empty in H0.
Qed.

Lemma directory_found_witness :
  ∃ d, ({[-3 := fresh ex_root (-3); 7 := fresh ex_root 7]} : gmap Z StateDir) !! (-3)
       = Some d
       ∧ ReadStateDir ex_fs_negative ex_root (-3) = Ok d.
Proof.
  apply (relation_directory_is_found ex_fs_negative ex_root (-3)
           {["-3" := Dir ∅; "7" := Dir ∅; "notes" := File NotYaml]}).
  - lia.
  - reflexivity.
  - by exists (Dir ∅).
  - vm_compute. reflexivity.
Defined.

Lemma EnsureDir_empty (p : path) :
  ∃ n, EnsureDir (Dir ∅) p = SysOk n ∧ resolve n p = SysOk (Dir ∅).
Proof.
  induction p as [|c p (n & Hn & Hres)]; [by exists (Dir ∅)|].
  simpl. rewrite lookup_empty. simpl. rewrite Hn. eexists. split; [done|].
  simpl. by rewrite lookup_insert_eq.
Qed.

Lemma EnsureDir_missing (fs : node) (p : path) (fs' : node) :
  resolve fs p = SysErr ENOENT → EnsureDir fs p = SysOk fs' →
  resolve fs' p = SysOk (Dir ∅).
Proof.
  revert fs fs'. induction p as [|c p IH]; intros fs fs' Hres Hens; [done|].
  destruct fs as [?|top]; [done|]. simpl in Hres, Hens.
  destruct (top !! c) as [n|] eqn:Hc; simpl in Hens.
  - destruct (EnsureDir n p) as [n'|] eqn:Hn; [|done]. injection Hens as <-.
    simpl. rewrite lookup_insert_eq. by apply (IH n).
  - destruct (EnsureDir_empty p) as (n' & Hn & Hr). rewrite Hn in Hens.
    injection Hens as <-. simpl. by rewrite lookup_insert_eq.
Qed.

Lemma EnsureDir_exists (fs : node) (p : path) (ents : gmap string node) :
  resolve fs p = SysOk (Dir ents) → EnsureDir fs p = SysOk fs.
Proof.
  revert fs. induction p as [|c p IH]; intros fs Hres.
  { simpl in Hres. injection Hres as ->. done. }
  destruct fs as [?|top]; [done|]. simpl in Hres |- *.
  destruct (top !! c) as [n|] eqn:Hc; [|done]. simpl.
  rewrite (IH n Hres). by rewrite insert_id.
Qed.

Lemma EnsureDir_cases (fs : node) (p : path) (fs' : node) :
  EnsureDir fs p = SysOk fs' →
  (∃ ents, resolve fs p = SysOk (Dir ents)) ∨ resolve fs p = SysErr ENOENT.
Proof.
  revert fs fs'. induction p as [|c p IH]; intros fs fs' Hens.
  { destruct fs as [?|ents]; [done|]. left. by exists ents. }
  destruct fs as [?|top]; [done|]. simpl in Hens |- *.
  destruct (top !! c) as [n|] eqn:Hc; simpl in Hens; [|by right].
  destruct (EnsureDir n p) as [n'|] eqn:Hn; [|done]. by apply (IH n n').
Qed.

Lemma ReadStateDir_empty (fs : node) (dirPath : path) (id : Z) :
  resolve fs (Join dirPath (Itoa id)) = SysOk (Dir ∅) →
  ReadStateDir fs dirPath id = Ok (fresh dirPath id).
Proof.
  intros Hdir. apply (ReadStateDir_LoadedDir _ _ _ ∅ _ Hdir).
  - intros name [? H]. by rewrite lookup_empty in H.
  - exists ∅, "". split; [done|]. split; [|split]; [| |done].
    + intros name u [? H]. by rewrite lookup_empty in H.
    + intros u [? H]. by rewrite lookup_empty in H.
Qed.

(** X17: ensuring the directory of a state directory that was loaded leaves
    a directory at its path and does not change what is loaded from it;
    ensuring it again changes nothing. *)
Theorem Ensure_keeps_what_is_loaded (fs : node) (dirPath : path) (id : Z)
    (d : StateDir) (fs1 : node) :
  ReadStateDir fs dirPath id = Ok d →
  Ensure d fs = (None, fs1) →
  (∃ ents, resolve fs1 (path_ d) = SysOk (Dir ents))
  ∧ ReadStateDir fs1 dirPath id = Ok d
  ∧ Ensure d fs1 = (None, fs1).
Proof.
  intros Hread. unfold Ensure.
  destruct (EnsureDir fs (path_ d)) as [fs'|] eqn:Hens; [|done]. intros [= <-].
  destruct (ReadStateDir_loaded _ _ _ _ Hread) as (Hpath & _).
  destruct (ReadStateDir_cases _ _ _ _ Hread) as [[ents Hdir]|[Hnot ->]].
  - rewrite <- Hpath in Hdir. rewrite (EnsureDir_exists _ _ _ Hdir) in Hens.
    injection Hens as <-. rewrite (EnsureDir_exists _ _ _ Hdir). eauto.
  - destruct (EnsureDir_cases _ _ _ Hens) as [[ents Hdir]|Hmiss].
    { by apply Hnot in Hdir. }
    pose proof (EnsureDir_missing _ _ _ Hmiss Hens) as Hnew.
    rewrite (EnsureDir_exists _ _ _ Hnew). split; [eauto|]. split; [|done].
    by apply ReadStateDir_empty.
Qed.

Lemma ensure_witness :
  (∃ ents, resolve ex_fs (path_ ex_dir) = SysOk (Dir ents))
  ∧ ReadStateDir ex_fs ex_root 7 = Ok ex_dir
  ∧ Ensure ex_dir ex_fs = (None, ex_fs).
Proof.
  apply (Ensure_keeps_what_is_loaded ex_fs_bare ex_root 7 ex_dir ex_fs); reflexivity.
Defined.

Lemma WriteYaml_no_directory (fs : node) (p : path) (c : string) (di : diskInfo)
    (e : errno) :
  resolve fs p = SysErr e → WriteYaml fs (p ++ [c])%list di = SysErr e.
Proof.
  revert fs. induction p as [|c0 p IH]; intros fs Hres; [done|].
  destruct fs as [?|top]; [by injection Hres as <-|].
  change ((c0 :: p) ++ [c])%list with (c0 :: (p ++ [c]))%list.
  rewrite WriteYaml_below by (by destruct p). simpl in Hres.
  destruct (top !! c0) as [n|]; [|done]. by rewrite (IH n Hres).
Qed.

Lemma WriteYaml_new_file (fs : node) (p : path) (c : string) (di : diskInfo)
    (ents : gmap string node) :
  resolve fs p = SysOk (Dir ents) →
  (∀ sub, ents !! c ≠ Some (Dir sub)) →
  ∃ fs', WriteYaml fs (p ++ [c])%list di = SysOk fs'.
Proof.
  revert fs. induction p as [|c0 p IH]; intros fs Hres Hfile.
  { simpl in Hres. injection Hres as ->. simpl.
    destruct (ents !! c) as [[?|sub]|] eqn:Hc; eauto. by destruct (Hfile sub). }
  destruct fs as [?|top]; [done|].
  change ((c0 :: p) ++ [c])%list with (c0 :: (p ++ [c]))%list.
  rewrite WriteYaml_below by (by destruct p). simpl in Hres.
  destruct (top !! c0) as [n|]; [|done].
  destruct (IH n Hres Hfile) as [n' ->]. eauto.
Qed.

(** X18: writing a join for a unit named [<service>/<number>] while the
    relation's directory does not exist fails and changes nothing, since
    [Write] does not create the directory; after [Ensure] the same write
    succeeds, provided the members of the cached state are not nil. *)
Theorem first_write_needs_the_directory (d : StateDir) (fs : node) (e : hook.Info) :
  resolve fs (path_ d) = SysErr ENOENT →
  hook.Kind_ e = hook.RelationJoined →
  UnitName (hook.RemoteUnit e) →
  Write d fs e
  = (Return (Some (Context (FailedToWrite (hook.Kind_ e) (hook.RemoteUnit e))
                     (PathError ENOENT))), d, fs)
  ∧ ∀ fs1, Ensure d fs = (None, fs1) →
           is_Some (Members (state d)) →
           ∃ d' fs2, Write d fs1 e = (Return None, d', fs2).
Proof.
  intros Hmiss Hk Hu.
  destruct (UnitName_file _ Hu) as [Hunit Hslash].
  destruct (unitOfEntry_name _ _ Hunit) as (H1 & H2 & H3).
  unfold Write. rewrite Hk.
  change (String.eqb hook.RelationJoined hook.RelationBroken) with false.
  change (String.eqb hook.RelationJoined hook.RelationDeparted) with false.
  change (String.eqb hook.RelationJoined hook.RelationJoined) with true. cbv iota.
  rewrite Join_file by done. split.
  - by rewrite (WriteYaml_no_directory _ _ _ _ _ Hmiss).
  - intros fs1. unfold Ensure.
    destruct (EnsureDir fs (path_ d)) as [fs'|] eqn:Hens; [|done]. intros [= <-] [m Hm].
    pose proof (EnsureDir_missing _ _ _ Hmiss Hens) as Hnew.
    destruct (WriteYaml_new_file fs' (path_ d) (Replace1 (hook.RemoteUnit e) slash hyphen)
                {| di_ChangeVersion := Some (hook.ChangeVersion e);
                   di_ChangedPending := true |} ∅ Hnew) as [fs2 Hw].
    { intros sub. by rewrite lookup_empty. }
    rewrite Hw, Hm. eauto.
Qed.

Lemma first_write_witness :
  Write ex_dir ex_fs_bare ex_joined
  = (Return (Some (Context (FailedToWrite hook.RelationJoined "wordpress/0")
                     (PathError ENOENT))), ex_dir, ex_fs_bare)
  ∧ ∃ d' fs2, Write ex_dir ex_fs ex_joined = (Return None, d', fs2).
Proof.
  destruct (first_write_needs_the_directory ex_dir ex_fs_bare ex_joined) as [H1 H2].
  - reflexivity.
  - reflexivity.
  - exists "wordpress", "0". repeat split. by exists 0.
  - split; [exact H1|]. apply H2; [reflexivity|]. by eexists.
Defined.

(** ** Validation after a write *)

(** X19: after a change has been written no change is pending and the unit
    is a member; for this relation the validation then depends on
    membership alone: a join is refused for a member and accepted for
    another unit, a change or a departure the other way round. *)
Theorem after_changed_nothing_is_pending (d : StateDir) (fs : node) (ec : hook.Info)
    (d' : StateDir) (fs' : node) (e : hook.Info) :
  hook.Kind_ ec = hook.RelationChanged →
  Write d fs ec = (Return None, d', fs') →
  hook.RelationId e = RelationId (state d') →
  hook.Kind_ e ≠ hook.RelationBroken →
  ChangedPending (state d') = ""
  ∧ is_Some (entries_of (Members (state d')) !! hook.RemoteUnit ec)
  ∧ Validate (State_ d') e
    = ErrorContextf (Inappropriate (hook.Kind_ e) (hook.RemoteUnit e))
        (if decide (is_Some (entries_of (Members (state d')) !! hook.RemoteUnit e))
         then (if decide (hook.Kind_ e = hook.RelationJoined)
               then Some AlreadyJoined else None)
         else (if decide (hook.Kind_ e = hook.RelationJoined)
               then None else Some NotJoined)).
Proof.
  intros Hk Hw Hid Hnb.
  destruct (Write_put_ok d fs ec d' fs') as (m & Hm & -> & _); [by rewrite Hk..|done|].
  rewrite Hk. change (String.eqb hook.RelationChanged hook.RelationJoined) with false.
  unfold with_state. simpl.
  split; [done|]. split; [by rewrite lookup_insert_eq|].
  rewrite State_id. apply ValidateSpec_Validate.
  set (m' := <[hook.RemoteUnit ec:=hook.ChangeVersion ec]> m).
  destruct (decide (is_Some (m' !! hook.RemoteUnit e))) as [Hin|Hout];
    destruct (decide (hook.Kind_ e = hook.RelationJoined)) as [Hj|Hj].
  - by apply (VS_AlreadyJoined _ _ m').
  - apply (VS_Valid _ _ m'); auto.
  - apply (VS_Valid _ _ m'); auto. right. split; [|done]. by apply eq_None_not_Some.
  - apply (VS_NotJoined _ _ m'); auto. by apply eq_None_not_Some.
Qed.

Lemma after_changed_witness :
  Validate (State_ (Write ex_dir_joined ex_fs_joined ex_changed).1.2) ex_departed = None.
Proof.
  destruct (after_changed_nothing_is_pending ex_dir_joined ex_fs_joined ex_changed
              (Write ex_dir_joined ex_fs_joined ex_changed).1.2
              (Write ex_dir_joined ex_fs_joined ex_changed).2 ex_departed)
    as (_ & _ & H); [reflexivity|reflexivity|reflexivity|by vm_compute|].
  rewrite H. reflexivity.
Defined.

(** X20: after a validated departure has been written the unit is no
    member: its join passes validation again, its change or departure is
    refused as not joined. *)
Theorem after_departed_the_unit_may_rejoin (d : StateDir) (fs : node) (ed : hook.Info)
    (d' : StateDir) (fs' : node) (e : hook.Info) :
  hook.Kind_ ed = hook.RelationDeparted →
  Validate (State_ d) ed = None →
  Write d fs ed = (Return None, d', fs') →
  hook.RelationId e = RelationId (state d') →
  hook.RemoteUnit e = hook.RemoteUnit ed →
  hook.Kind_ e ≠ hook.RelationBroken →
  Validate (State_ d') e
  = ErrorContextf (Inappropriate (hook.Kind_ e) (hook.RemoteUnit e))
      (if decide (hook.Kind_ e = hook.RelationJoined) then None else Some NotJoined).
Proof.
  intros Hk Hvalid Hw Hid Hu Hnb. rewrite State_id in Hvalid.
  assert (Hnbd : hook.Kind_ ed ≠ hook.RelationBroken) by (by rewrite Hk).
  unfold Validate in Hvalid.
  destruct (Members (state d)) as [m|] eqn:Hm.
  2: { unfold Validate_body in Hvalid. rewrite Hm in Hvalid.
       by destruct (negb _). }
  assert (Hv : Validate (state d) ed = None) by done.
  destruct (Validate_unit_event _ _ _ Hv Hm Hnbd) as [(_ & _ & Hc)|(Hcp & _)];
    [by rewrite Hk in Hc|].
  rewrite (Write_departed_ok _ _ _ _ _ Hk Hw) in Hid |- *. rewrite State_id.
  apply ValidateSpec_Validate. rewrite Hm. simpl in *.
  set (m' := delete (hook.RemoteUnit ed) m).
  assert (Hgone : m' !! hook.RemoteUnit e = None).
  { rewrite Hu. apply lookup_delete_eq. }
  destruct (decide (hook.Kind_ e = hook.RelationJoined)) as [Hj|Hj].
  - apply (VS_Valid _ _ m'); auto.
  - by apply (VS_NotJoined _ _ m').
Qed.

Lemma after_departed_witness :
  Validate
    (State_ (Write (Write ex_dir_joined ex_fs_joined ex_changed).1.2
               (Write ex_dir_joined ex_fs_joined ex_changed).2 ex_departed).1.2)
    ex_joined = None.
Proof.
  rewrite (after_departed_the_unit_may_rejoin
             (Write ex_dir_joined ex_fs_joined ex_changed).1.2
             (Write ex_dir_joined ex_fs_joined ex_changed).2 ex_departed
             (Write (Write ex_dir_joined ex_fs_joined ex_changed).1.2
                (Write ex_dir_joined ex_fs_joined ex_changed).2 ex_departed).1.2
             (Write (Write ex_dir_joined ex_fs_joined ex_changed).1.2
                (Write ex_dir_joined ex_fs_joined ex_changed).2 ex_departed).2
             ex_joined); first [reflexivity | by vm_compute].
Defined.

(** * Properties of [MaybeInitiateMongoServer] *)

Module peergrouper_facts.
Import peergrouper.

Section props.
Variables (rs tag mid : string).

(** X21: with more than one address in the dial info the function returns
    nil at once: the dial info is left as it was, and the log lines apart
    nothing is done, no dial in particular. *)
Theorem several_addresses_nothing_done (w : World) (p : InitiateMongoParams)
    (info : DialInfo) :
  DialInfo_ p = Some info →
  (1 < length (Addrs info))%nat →
  MaybeInitiateMongoServer rs tag mid w p
  = (Returns None, Some info,
     [LogInitiating (Some info) (MemberHostPort p) (User p) (Password_ p);
      LogMoreThanOneMember; LogFinished]).
Proof.
  intros Hp H. unfold MaybeInitiateMongoServer. rewrite Hp.
  destruct (Nat.ltb_spec 1 (length (Addrs info))); [done|lia].
Qed.

(** X22: the replica set is initiated exactly when the call got a session
    and the server has no configuration, or one without members; a
    configuration with members makes the call return nil. *)
Theorem initiates_only_without_members (w : World) (p : InitiateMongoParams) :
  let r := MaybeInitiateMongoServer rs tag mid w p in
  (existsb is_Initiate r.2 = true
   ↔ has_session w r.1.2
     ∧ (currentConfig w = inl ErrNotFound ∨ currentConfig w = inr []))
  ∧ (∀ m ms, has_session w r.1.2 →
       currentConfig w = inr (m :: ms) → r.1.1 = Returns None).
Proof.
  unfold MaybeInitiateMongoServer, has_session.
  destruct (DialInfo_ p) as [info0|].
  2: { simpl. split; [split; [done|]|]; [by intros [(? & ? & _) _]|by intros ? ? (? & ? & _)]. }
  destruct (Nat.ltb_spec 1 (length (Addrs info0))) as [Hlt|Hge].
  { simpl. split; [split; [done|]|].
    - intros [(i & [= <-] & ? & _) _]. lia.
    - intros ? ? (i & [= <-] & ? & _). lia. }
  set (info := if negb _ then _ else _).
  assert (Hlen : (length (Addrs info) <= 1)%nat).
  { subst info. by destruct (negb _). }
  destruct (dial w info) as [err|] eqn:Hdial.
  { simpl. split; [split; [done|]|].
    - intros [(i & [= <-] & _ & ?) _]. congruence.
    - intros ? ? (i & [= <-] & _ & ?). congruence. }
  destruct (currentConfig w) as [[|text]|[|m ms]] eqn:Hcfg; simpl.
  - split; [|done]. split; [|done]. intros _. split; [by exists info|]. by left.
  - split; [|done]. split; [done|]. by intros (_ & [?|?]).
  - split; [|done]. split; [|done]. intros _. split; [by exists info|]. by right.
  - split; [|done]. split; [done|]. by intros (_ & [?|?]).
Qed.

(** X23: a session that was opened is closed, once, as the last thing
    before the closing log line, whichever way the call returns; without a
    session nothing is closed. *)
Theorem session_is_closed (w : World) (p : InitiateMongoParams) :
  let r := MaybeInitiateMongoServer rs tag mid w p in
  (has_session w r.1.2 →
   ∃ before i, r.1.2 = Some i ∧ (r.2 = (before ++ [Close; LogFinished])%list)
             ∧ (Close ∉ before) ∧ DialWithInfo i ∈ before)
  ∧ (Close ∈ r.2 → has_session w r.1.2).
Proof.
  unfold MaybeInitiateMongoServer, has_session.
  destruct (DialInfo_ p) as [info0|].
  2: { simpl. split; [by intros (? & ? & _)|].
       rewrite !elem_of_cons, elem_of_nil. by intros [?|[?|?]]. }
  destruct (Nat.ltb_spec 1 (length (Addrs info0))) as [Hlt|Hge].
  { simpl. split; [intros (i & [= <-] & ? & _); lia|].
    rewrite !elem_of_cons, elem_of_nil. by intros [?|[?|[?|?]]]. }
  set (info := if negb _ then _ else _).
  assert (Hlen : (length (Addrs info) <= 1)%nat).
  { subst info. by destruct (negb _). }
  destruct (dial w info) as [err|] eqn:Hdial.
  { simpl. split; [intros (i & [= <-] & _ & ?); congruence|].
    rewrite !elem_of_cons, elem_of_nil. by intros [?|[?|[?|?]]]. }
  assert (Hnot : ∀ l, Close ∉ l → DialWithInfo info ∈ l →
            ∃ before i, Some info = Some i
              ∧ ((l ++ [Close; LogFinished])%list = (before ++ [Close; LogFinished])%list)
              ∧ (Close ∉ before) ∧ DialWithInfo i ∈ before).
  { intros l ? ?. by exists l, info. }
  destruct (currentConfig w) as [[|text]|[|m ms]] eqn:Hcfg; simpl;
    (split; [intros _|intros _; by exists info]).
  - apply (Hnot [_; _; _; _]).
    + rewrite !elem_of_cons, elem_of_nil. by intros [?|[?|[?|[?|?]]]].
    + rewrite !elem_of_cons. auto.
  - apply (Hnot [_; _; _]).
    + rewrite !elem_of_cons, elem_of_nil. by intros [?|[?|[?|?]]].
    + rewrite !elem_of_cons. auto.
  - apply (Hnot [_; _; _; _]).
    + rewrite !elem_of_cons, elem_of_nil. by intros [?|[?|[?|[?|?]]]].
    + rewrite !elem_of_cons. auto.
  - apply (Hnot [_; _; _; _]).
    + rewrite !elem_of_cons, elem_of_nil. by intros [?|[?|[?|[?|?]]]].
    + rewrite !elem_of_cons. auto.
Qed.

(** X24: with at most one address the caller's dial info is rewritten: the
    addresses stay, the connection is made direct, the user and the password
    of the parameters replace those of the dial info exactly when the user
    is not empty; and the one dial of the call uses the rewritten info. *)
Theorem dial_info_is_rewritten (w : World) (p : InitiateMongoParams)
    (info : DialInfo) :
  DialInfo_ p = Some info →
  (length (Addrs info) <= 1)%nat →
  let r := MaybeInitiateMongoServer rs tag mid w p in
  ∃ info', r.1.2 = Some info'
  ∧ Addrs info' = Addrs info
  ∧ Direct info' = true
  ∧ (User p ≠ "" → Username info' = User p ∧ Password info' = Password_ p)
  ∧ (User p = "" → Username info' = Username info ∧ Password info' = Password info)
  ∧ filter (λ ev, is_Dial ev = true) r.2 = [DialWithInfo info'].
Proof.
  intros Hp Hle. unfold MaybeInitiateMongoServer. rewrite Hp.
  destruct (Nat.ltb_spec 1 (length (Addrs info))) as [Hlt|Hge]; [lia|].
  destruct (String.eqb_spec (User p) "") as [Hu|Hu]; cbn [negb].
  - destruct (dial w _) as [err|];
      [|destruct (currentConfig w) as [[|text]|[|m ms]]]; simpl;
      (eexists; split; [done|]); simpl; repeat split; done.
  - destruct (dial w _) as [err|];
      [|destruct (currentConfig w) as [[|text]|[|m ms]]]; simpl;
      (eexists; split; [done|]); simpl; repeat split; done.
Qed.

(** X25: the call panics exactly when the dial info is nil; it has then
    called neither the driver nor [replicaset], and the closing log line is
    still written. *)
Theorem panics_only_without_dial_info (w : World) (p : InitiateMongoParams) :
  let r := MaybeInitiateMongoServer rs tag mid w p in
  (r.1.1 = Panics ↔ DialInfo_ p = None)
  ∧ (r.1.1 = Panics → filter (λ ev, is_call ev = true) r.2 = [])
  ∧ last r.2 = Some LogFinished.
Proof.
  unfold MaybeInitiateMongoServer.
  destruct (DialInfo_ p) as [info0|]; [|done].
  destruct (Nat.ltb 1 (length (Addrs info0))); [done|].
  destruct (dial w _) as [err|]; [done|].
  destruct (currentConfig w) as [[|text]|[|m ms]]; done.
Qed.

End props.

Lemma several_addresses_witness :
  MaybeInitiateMongoServer "juju" "juju-machine-id" "0" ex_world ex_two_addresses
  = (Returns None, DialInfo_ ex_two_addresses,
     [LogInitiating (DialInfo_ ex_two_addresses) "10.0.0.1:37017" "admin" "secret";
      LogMoreThanOneMember; LogFinished]).
Proof.
  apply (several_addresses_nothing_done "juju" "juju-machine-id" "0"
           ex_world ex_two_addresses); [reflexivity|simpl; lia].
Defined.

Lemma dial_info_witness :
  ∃ info',
    (MaybeInitiateMongoServer "juju" "juju-machine-id" "0" ex_world ex_params).1.2
    = Some info'
    ∧ Direct info' = true ∧ Username info' = "admin".
Proof.
  destruct (dial_info_is_rewritten "juju" "juju-machine-id" "0" ex_world ex_params ex_info)
    as (info' & H & _ & Hd & Hu & _); [reflexivity|simpl; lia|].
  exists info'. split; [exact H|]. split; [exact Hd|]. by apply Hu.
Defined.

End peergrouper_facts.
